(** * ExtractHtmlContentPlugin: a shallow embedding and its properties

    The development follows [src/plugins/default/ExtractHtmlContentPlugin.ts]:
    JavaScript string primitives first, then the plugin's data, its methods
    ([test], [getSelectorBase], [transformToContentRows], [extractContent],
    [diffAndMerge], [apply]) and finally the properties of each method. *)

From Stdlib Require Import Strings.String Strings.Ascii NArith.
From stdpp Require Import base option list gmap sets strings.

Local Open Scope string_scope.
Local Open Scope nat_scope.
Local Open Scope list_scope.

#[local] Set Warnings "-clear-no-such-hyp".

(** ** JavaScript string primitives used by the plugin

    A JavaScript string is represented by its UTF-8 bytes, as a string
    literal of this file is: one byte for a character below 128, a lead byte
    and its continuation bytes for any other character.  A byte from 128 to
    191 that no lead byte announces stands for the character of that code. *)

Module JsString.

(** [s.startsWith(p)] *)
Fixpoint startsWith (s p : string) : bool :=
  match p, s with
  | EmptyString, _ => true
  | String _ _, EmptyString => false
  | String c p', String d s' => if Ascii.eqb c d then startsWith s' p' else false
  end.

(** [s.split(sep)] for a one-character separator: never returns an empty
    array, [''.split(' ')] is [['']]. *)
Fixpoint split (sep : ascii) (s : string) : list string :=
  match s with
  | EmptyString => [EmptyString]
  | String c s' =>
      if Ascii.eqb c sep then EmptyString :: split sep s'
      else match split sep s' with
           | [] => [String c EmptyString]
           | w :: ws => String c w :: ws
           end
  end.

(** [arr.join(sep)] on an array of strings. *)
Fixpoint join (sep : string) (l : list string) : string :=
  match l with
  | [] => EmptyString
  | [x] => x
  | x :: rest => x +:+ sep +:+ join sep rest
  end.

(** [s.substring(n)] *)
Fixpoint substringFrom (n : nat) (s : string) : string :=
  match n, s with
  | 0, _ => s
  | S _, EmptyString => EmptyString
  | S n', String _ s' => substringFrom n' s'
  end.

(** [s.replace(pat, rep)] with a string pattern: only the first occurrence
    is replaced.  The plugin only calls it with [rep = ''], so the dollar
    patterns of the replacement string play no role. *)
Fixpoint replace (s pat rep : string) : string :=
  if startsWith s pat then rep +:+ substringFrom (String.length pat) s
  else match s with
       | EmptyString => EmptyString
       | String c s' => String c (replace s' pat rep)
       end.

(** The value of a byte. *)
Definition byteValue (c : ascii) : N := N_of_ascii c.

(** The number of bytes of the character that starts with the byte [c]: what
    a lead byte announces, one for any other byte. *)
Definition sequenceLength (c : ascii) : nat :=
  if (byteValue c <? 192)%N then 1
  else if (byteValue c <? 224)%N then 2
  else if (byteValue c <? 240)%N then 3
  else 4.

(** The number of bytes of the first character of [l]: the announced ones, as
    far as there are that many. *)
Definition charLength (l : list ascii) : nat :=
  match l with
  | [] => 0
  | c :: _ => sequenceLength c `min` length l
  end.

Fixpoint charsFuel (fuel : nat) (l : list ascii) : list (list ascii) :=
  match fuel, l with
  | S fuel', _ :: _ =>
      take (charLength l) l :: charsFuel fuel' (drop (charLength l) l)
  | _, _ => []
  end.

(** The characters of a string, each with its bytes.  A character takes one
    byte at least, so the length of the string is fuel enough. *)
Definition chars (l : list ascii) : list (list ascii) := charsFuel (length l) l.

Definition isContinuation (c : ascii) : bool :=
  ((128 <=? byteValue c) && (byteValue c <? 192))%N.

(** The code point of a character; U+FFFD for bytes that do not encode
    one. *)
Definition codePoint (char : list ascii) : N :=
  match char with
  | [c1] => if (byteValue c1 <? 192)%N then byteValue c1 else 65533%N
  | [c1; c2] =>
      if (byteValue c1 <? 224)%N && isContinuation c2
      then ((byteValue c1 - 192) * 64 + (byteValue c2 - 128))%N
      else 65533%N
  | [c1; c2; c3] =>
      if (byteValue c1 <? 240)%N && isContinuation c2 && isContinuation c3
      then ((byteValue c1 - 224) * 4096 + (byteValue c2 - 128) * 64
            + (byteValue c3 - 128))%N
      else 65533%N
  | [c1; c2; c3; c4] =>
      if isContinuation c2 && isContinuation c3 && isContinuation c4
      then ((byteValue c1 - 240) * 262144 + (byteValue c2 - 128) * 4096
            + (byteValue c3 - 128) * 64 + (byteValue c4 - 128))%N
      else 65533%N
  | _ => 65533%N
  end.

(** White space and line terminators as [trim] sees them: TAB, LF, VT, FF,
    CR, SPACE, U+00A0 (no-break space), U+1680, U+2000 to U+200A, U+2028,
    U+2029, U+202F, U+205F, U+3000 and U+FEFF. *)
Definition isWhiteSpace (cp : N) : bool :=
  (((9 <=? cp) && (cp <=? 13)) || (cp =? 32) || (cp =? 160) || (cp =? 5760)
   || ((8192 <=? cp) && (cp <=? 8202)) || (cp =? 8232) || (cp =? 8233)
   || (cp =? 8239) || (cp =? 8287) || (cp =? 12288) || (cp =? 65279))%N.

Fixpoint dropWhile {A : Type} (p : A → bool) (l : list A) : list A :=
  match l with
  | [] => []
  | x :: l' => if p x then dropWhile p l' else l
  end.

Fixpoint dropWhileEnd {A : Type} (p : A → bool) (l : list A) : list A :=
  match l with
  | [] => []
  | x :: l' =>
      match dropWhileEnd p l' with
      | [] => if p x then [] else [x]
      | kept => x :: kept
      end
  end.

(** [s.trim()]: the string without the white space characters at its two
    ends. *)
Definition trim (s : string) : string :=
  string_of_list_ascii
    (concat (dropWhileEnd (λ char, isWhiteSpace (codePoint char))
               (dropWhile (λ char, isWhiteSpace (codePoint char))
                  (chars (list_ascii_of_string s))))).
#[global] Arguments trim : simpl never.

(** Simple case folding of the letters of [/html/i]. *)
Definition toLower (c : ascii) : ascii :=
  let n := nat_of_ascii c in
  if (65 <=? n) && (n <=? 90) then ascii_of_nat (n + 32) else c.

Fixpoint startsWithIgnoreCase (s p : string) : bool :=
  match p, s with
  | EmptyString, _ => true
  | String _ _, EmptyString => false
  | String c p', String d s' =>
      if Ascii.eqb (toLower c) (toLower d) then startsWithIgnoreCase s' p' else false
  end.

(** [(/html/i).test(s)]: the pattern occurs somewhere in [s], letter case
    ignored. *)
Fixpoint testHtmlIgnoreCase (s : string) : bool :=
  startsWithIgnoreCase s "html" ||
  match s with
  | EmptyString => false
  | String _ s' => testHtmlIgnoreCase s'
  end.

(** [s.includes(c)] for a one-character string [c]. *)
Fixpoint includesChar (c : ascii) (s : string) : bool :=
  match s with
  | EmptyString => false
  | String d s' => Ascii.eqb d c || includesChar c s'
  end.

End JsString.

Import JsString.

(** ** Data

    A scraped value is a string or absent: [getAttribute] may return
    [null]/[undefined], which the plugin treats alike (both are falsy and both
    are joined as the empty string), so one constructor stands for the two. *)
Abbreviation value := (option string).
Abbreviation row := (list (option string)).

(** JavaScript truthiness of a value: absent and [''] are falsy. *)
Definition truthy (v : value) : bool :=
  match v with
  | Some s => negb (String.eqb s "")
  | None => false
  end.

(** A value is trimmed when it is absent or a string that [trim] leaves as
    it is. *)
Definition trimmed (v : value) : Prop :=
  match v with
  | Some s => trim s = s
  | None => True
  end.

(** One entry of [opts.selectorPairs]; only [contentSelector] is required by
    the schema, [contentProperty] is filled in by the schema's default. *)
Record SelectorPair : Type := {
  label : option string;
  contentSelector : string;
  contentProperty : string
}.

Record Opts : Type := {
  domRead : option bool;
  selectorPairs : option (list SelectorPair)
}.

(** Exceptions the embedded methods can raise: the two the plugin's own
    statements can cause, and the one a document query raises on a selector
    it cannot parse. *)
Inductive exn : Type := TypeError | RangeError | SyntaxError.

Inductive result (A : Type) : Type :=
| Ok (a : A)
| Throw (e : exn).
Arguments Ok {A} a.
Arguments Throw {A} e.

#[global] Instance result_ret : MRet result := λ A a, Ok a.
#[global] Instance result_bind : MBind result := λ A B f r,
  match r with
  | Ok a => f a
  | Throw e => Throw e
  end.

(** ** [getSelectorBase] *)

(** The outer [for] loop of [getSelectorBase]: [todo] iterations remain, [i]
    is the loop index and [selectorBase] the last accepted candidate.  The
    inner loop over [selectors] returns at the first selector that does not
    start with [checkBase]. *)
Fixpoint getSelectorBase_loop (cssFragments selectors : list string)
    (todo i : nat) (selectorBase : option string) : option string :=
  match todo with
  | 0 => selectorBase
  | S todo' =>
      let checkBase := join " " (take (i + 1) cssFragments) in
      if forallb (λ selector, startsWith selector checkBase) selectors
      then getSelectorBase_loop cssFragments selectors todo' (i + 1) (Some checkBase)
      else selectorBase
  end.

(** [selectors[0].split(' ')] raises a TypeError on an empty list. *)
Definition getSelectorBase (selectorPairs : list SelectorPair) : result (option string) :=
  let selectors := contentSelector <$> selectorPairs in
  match selectors with
  | [] => Throw TypeError
  | selector0 :: _ =>
      let cssFragments := split " " selector0 in
      Ok (getSelectorBase_loop cssFragments selectors (length cssFragments) 0 None)
  end.

(** [selectorPair.label || selectorPair.contentSelector] *)
Definition getContentKeys (selectorPairs : list SelectorPair) : list string :=
  (λ selectorPair,
     if truthy (label selectorPair)
     then default "" (label selectorPair)
     else contentSelector selectorPair)
    <$> selectorPairs.

(** ** [transformToContentRows] *)

(** One turn of the padding loop: a column shorter than [maxLength] is
    extended with copies of its last value, or of [''] when it is empty. *)
Definition padColumn (maxLength : nat) (selectorContent : list value) : list value :=
  if length selectorContent <? maxLength then
    let lastVal :=
      if 0 <? length selectorContent
      then default None (selectorContent !! (length selectorContent - 1))
      else Some "" in
    selectorContent ++ replicate (maxLength - length selectorContent) lastVal
  else selectorContent.

(** [Math.max()] of no argument is [-Infinity] and [Array(-Infinity)] raises a
    RangeError; reading an array past its end gives [undefined].  The source
    pads the columns in place; both callers pass arrays they have just built
    and do not read them again, so the padded columns are a local value
    here. *)
Definition transformToContentRows (contentBySelector : list (list value))
  : result (list row) :=
  match contentBySelector with
  | [] => Throw RangeError
  | _ :: _ =>
      let maxLength := max_list (length <$> contentBySelector) in
      let padded := padColumn maxLength <$> contentBySelector in
      Ok ((λ idx, (λ column : list value, default None (column !! idx)) <$> padded)
            <$> seq 0 maxLength)
  end.

(** ** [diffAndMerge]

    [content] is the plugin's [Set] of joined rows already returned; the
    filter callback reads and extends it row by row. *)

(** [contentRow.join(',')]: absent values are joined as the empty string. *)
Definition joinRow (contentRow : row) : string :=
  join "," (default "" <$> contentRow).

Fixpoint diffAndMerge (content : gset string) (currentContent : list row)
  : list row * gset string :=
  match currentContent with
  | [] => ([], content)
  | contentRow :: rest =>
      let joinedContent := joinRow contentRow in
      if decide (joinedContent ∈ content) then diffAndMerge content rest
      else
        let '(kept, content') := diffAndMerge ({[joinedContent]} ∪ content) rest in
        (contentRow :: kept, content')
  end.

(** ** The methods that read the document

    The document is reached through [IDomNode] only: [querySelectorAll]
    returns the matching nodes in document order, or raises when it is given
    a selector it cannot parse, and [getAttribute] returns the value of a
    property, if any.  [Project] and [Resource] are the storage classes; of a
    resource, [test] reads [contentType] only. *)

Section Plugin.
Context {Project Resource node : Type}.
Variable contentType : Resource → string.
Variable querySelectorAll : node → string → result (list node).
Variable getAttribute : node → string → value.

(** [test(project, resource)].  [this.opts] is a declared field without an
    initialiser: reading [selectorPairs] from an absent [opts] is a
    TypeError. *)
Definition test (opts : option Opts) (project : Project) (resource : option Resource)
  : result bool :=
  match resource with
  | None => Ok false
  | Some resource =>
      match opts with
      | None => Throw TypeError
      | Some opts =>
          let selectorsPresent :=
            match selectorPairs opts with
            | Some pairs => 0 <? length pairs
            | None => false
            end in
          if negb selectorsPresent then Ok false
          else Ok (testHtmlIgnoreCase (contentType resource))
      end
  end.

(** The callback mapped over the matched elements:
    [attr ? attr.trim() : attr]. *)
Definition scrapeValue (contentProperty : string) (elm : node) : value :=
  let attr := getAttribute elm contentProperty in
  if truthy attr then trim <$> attr else attr.

(** [arr.reduce(f, acc)] for a callback that may raise. *)
Fixpoint reduce {A B : Type} (f : B → A → result B) (l : list A) (acc : B) : result B :=
  match l with
  | [] => Ok acc
  | x :: l' => acc' ← f acc x; reduce f l' acc'
  end.

(** [arr.map(f)], or a loop over an array, for a body that may raise: the
    first exception ends it. *)
Fixpoint mapM {A B : Type} (f : A → result B) (l : list A) : result (list B) :=
  match l with
  | [] => Ok []
  | x :: l' => y ← f x; ys ← mapM f l'; Ok (y :: ys)
  end.

(** The column of one selector within a base element: the elements are
    queried, their values scraped and the falsy ones filtered out. *)
Definition scopedColumn (baseElm : node) (suffixSelector : string)
    (selectorPair : SelectorPair) : result (list value) :=
  elms ← querySelectorAll baseElm suffixSelector;
  Ok (List.filter truthy (scrapeValue (contentProperty selectorPair) <$> elms)).

(** The columns scraped within one base element, one per suffix selector. *)
Definition contentBySelectorOf (pairs : list SelectorPair) (suffixSelectors : list string)
    (baseElm : node) : result (list (list value)) :=
  mapM (λ entry, scopedColumn baseElm entry.1 entry.2) (zip suffixSelectors pairs).

(** The reducer of the scoped branch. *)
Definition scrapeBaseElm (pairs : list SelectorPair) (suffixSelectors : list string)
    (rows : list row) (baseElm : node) : result (list row) :=
  contentBySelector ← contentBySelectorOf pairs suffixSelectors baseElm;
  let validRowResult := List.find (λ colEntry, 0 <? length colEntry) contentBySelector in
  match validRowResult with
  | Some _ =>
      newRows ← transformToContentRows contentBySelector;
      Ok (rows ++ newRows)
  | None => Ok rows
  end.

(** The first statements of [extractContent]: the base is looked for only
    with more than one selector pair, and kept only if it is a non-empty
    string that matches an element of the document.  The document is queried
    only for a non-empty candidate. *)
Definition inferSelectorBase (pairs : list SelectorPair) (document : node)
  : result (option string) :=
  if 1 <? length pairs then
    potentialSelectorBase ← getSelectorBase pairs;
    match potentialSelectorBase with
    | Some base =>
        if truthy potentialSelectorBase then
          elms ← querySelectorAll document base;
          if 0 <? length elms then Ok potentialSelectorBase else Ok None
        else Ok None
    | None => Ok None
    end
  else Ok None.

Definition suffixSelectorsOf (pairs : list SelectorPair) (selectorBase : string)
  : list string :=
  (λ selectorPair, trim (replace (contentSelector selectorPair) selectorBase ""))
    <$> pairs.

(** The branch taken when a common base was detected. *)
Definition extractScoped (pairs : list SelectorPair) (selectorBase : string)
    (document : node) : result (list row) :=
  let suffixSelectors := suffixSelectorsOf pairs selectorBase in
  baseElms ← querySelectorAll document selectorBase;
  reduce (scrapeBaseElm pairs suffixSelectors) baseElms [].

(** The column of one selector in the branch without a base: no filter is
    applied. *)
Definition globalColumn (document : node) (selectorPair : SelectorPair)
  : result (list value) :=
  elms ← querySelectorAll document (contentSelector selectorPair);
  Ok (scrapeValue (contentProperty selectorPair) <$> (elms : list node)).

Definition globalColumns (pairs : list SelectorPair) (document : node)
  : result (list (list value)) :=
  mapM (globalColumn document) pairs.

Definition extractGlobal (pairs : list SelectorPair) (document : node)
  : result (list row) :=
  contentBySelector ← globalColumns pairs document;
  transformToContentRows contentBySelector.

Definition extractContent (opts : option Opts) (document : node) : result (list row) :=
  match opts ≫= selectorPairs with
  | None => Throw TypeError
  | Some pairs =>
      selectorBase ← inferSelectorBase pairs document;
      match selectorBase with
      | Some base =>
          if truthy selectorBase then extractScoped pairs base document
          else extractGlobal pairs document
      | None => extractGlobal pairs document
      end
  end.

(** [apply]: one pass.  The returned pair is the [content] field of the
    result and the plugin's set after the pass. *)
Definition apply (opts : option Opts) (content : gset string) (document : node)
  : result (list row * gset string) :=
  currentContent ← extractContent opts document;
  Ok (diffAndMerge content currentContent).

(** An exception that some document query raises. *)
Definition queryRaises (e : exn) : Prop :=
  ∃ (n : node) selector, querySelectorAll n selector = Throw e.

End Plugin.

(** ** Documents for the examples

    A document is given by two tables: the nodes a selector matches below a
    node, in document order, and the properties of each node.  Nodes are
    numbered, node [0] is the root.  A query raises a SyntaxError on the
    empty selector and on one that starts with a combinator or a comma, as a
    browser does. *)

Module Fixture.

Record Doc : Type := {
  matches : list (nat * string * list nat);
  props : list (nat * string * string)
}.

(** A node carries the document it belongs to. *)
Definition Node : Type := Doc * nat.

Definition validSelector (selector : string) : bool :=
  match selector with
  | EmptyString => false
  | String c _ =>
      negb (Ascii.eqb c ">" || Ascii.eqb c "+" || Ascii.eqb c "~" || Ascii.eqb c ",")
  end.

Definition querySelectorAll (n : Node) (selector : string) : result (list Node) :=
  if validSelector selector then
    match List.find (λ e, (e.1.1 =? n.2) && String.eqb e.1.2 selector) (matches n.1) with
    | Some e => Ok ((λ i, (n.1, i)) <$> e.2)
    | None => Ok []
    end
  else Throw SyntaxError.

Definition getAttribute (n : Node) (property : string) : value :=
  match List.find (λ e, (e.1.1 =? n.2) && String.eqb e.1.2 property) (props n.1) with
  | Some e => Some e.2
  | None => None
  end.

Definition pairOf (selector : string) : SelectorPair :=
  {| label := None; contentSelector := selector; contentProperty := "innerText" |}.

Definition opts (selectors : list string) : option Opts :=
  Some {| domRead := Some true; selectorPairs := Some (pairOf <$> selectors) |}.

Definition extract (d : Doc) (selectors : list string) : result (list row) :=
  extractContent querySelectorAll getAttribute (opts selectors) (d, 0).

Definition pass (d : Doc) (selectors : list string) (content : gset string)
  : result (list row * gset string) :=
  apply querySelectorAll getAttribute (opts selectors) content (d, 0).

(** U+00A0, the no-break space of [&nbsp;]. *)
Definition nbsp : string := String "194" (String "160" EmptyString).

(** Three [.item] blocks: title and price, title only, and one whose title
    holds white space only, a no-break space among it. *)
Definition items : Doc := {|
  matches := [ (0, ".item", [1; 2; 3]);
               (0, ".item .title", [4; 6]);
               (0, ".item .price", [5]);
               (1, ".title", [4]); (1, ".price", [5]);
               (2, ".title", [6]);
               (3, ".title", [7]) ];
  props := [ (4, "innerText", "T1"); (5, "innerText", " P1 ");
             (6, "innerText", "T2"); (7, "innerText", " " +:+ nbsp +:+ " ") ]
|}.

(** [.items] is not an [.item], yet starts with it. *)
Definition shelves : Doc := {|
  matches := [ (0, ".item", [1]); (1, ".title", [2]);
               (0, ".item .title", [2]); (0, ".items .price", [4]) ];
  props := [ (2, "innerText", "T1"); (4, "innerText", "P1") ]
|}.

(** A list whose first selector is the base of the second. *)
Definition menu : Doc := {|
  matches := [ (0, ".item", [1; 2]); (0, ".item .title", [3; 4]);
               (1, ".title", [3]); (2, ".title", [4]) ];
  props := [ (1, "innerText", "A a"); (2, "innerText", "B b");
             (3, "innerText", "a"); (4, "innerText", "b") ]
|}.

(** A paragraph whose text stands between no-break spaces. *)
Definition spaced : Doc := {|
  matches := [ (0, "p", [1]) ];
  props := [ (1, "innerText", nbsp +:+ "x y " +:+ nbsp) ]
|}.

(** A heading and two paragraphs, the first of them empty. *)
Definition page : Doc := {|
  matches := [ (0, "h1", [1]); (0, "p", [2; 3]) ];
  props := [ (1, "innerText", " Title "); (2, "innerText", "");
             (3, "innerText", " x ") ]
|}.

(** Two snapshots of a list whose second row joins to the key of the
    first. *)
Definition listing1 : Doc := {|
  matches := [ (0, "h1", [1]); (0, "p", [2]) ];
  props := [ (1, "innerText", "a,b"); (2, "innerText", "c") ]
|}.

Definition listing2 : Doc := {|
  matches := [ (0, "h1", [1; 3]); (0, "p", [2; 4]) ];
  props := [ (1, "innerText", "a,b"); (2, "innerText", "c");
             (3, "innerText", "a"); (4, "innerText", "b,c") ]
|}.

(** The same list with a row of a new key. *)
Definition listing3 : Doc := {|
  matches := [ (0, "h1", [1; 3]); (0, "p", [2; 4]) ];
  props := [ (1, "innerText", "a,b"); (2, "innerText", "c");
             (3, "innerText", "d"); (4, "innerText", "e") ]
|}.

End Fixture.

(** * Properties *)

(** ** Examples: the methods on small inputs *)

Example split_selector : split " " ".item  .title" = [".item"; ""; ".title"].
Proof. reflexivity. Qed.

Example join_fragments : join " " [".item"; ""; ".title"] = ".item  .title".
Proof. reflexivity. Qed.

Example replace_first_only : replace "a.b.a" "a" "" = ".b.a".
Proof. reflexivity. Qed.

Example trim_both_ends : trim "  a b  " = "a b".
Proof. reflexivity. Qed.

Example trim_no_break_space :
  trim (Fixture.nbsp +:+ " x y" +:+ Fixture.nbsp +:+ Fixture.nbsp) = "x y".
Proof. reflexivity. Qed.

(** U+FEFF and U+2028 are white space, U+200B is not. *)
Example trim_unicode_space :
  trim (String "239" (String "187" (String "191"
          (String "226" (String "128" (String "139"
             (String "226" (String "128" (String "168" "")))))))))
  = String "226" (String "128" (String "139" "")).
Proof. reflexivity. Qed.

(** A byte 160 that no lead byte announces is read as U+00A0. *)
Example trim_stray_byte : trim (String "160" ("x" +:+ String "160" "")) = "x".
Proof. reflexivity. Qed.

(** The last byte of U+00E0 is the byte of a no-break space, and stays. *)
Example trim_keeps_letter :
  trim (" x" +:+ String "195" (String "160" " ")) = "x" +:+ String "195" (String "160" "").
Proof. reflexivity. Qed.

Example test_html_uppercase : testHtmlIgnoreCase "text/HTML; charset=utf-8" = true.
Proof. reflexivity. Qed.

Example extract_items :
  Fixture.extract Fixture.items [".item .title"; ".item .price"]
  = Ok [[Some "T1"; Some "P1"]; [Some "T2"; Some ""]].
Proof. reflexivity. Qed.

Example extract_page :
  Fixture.extract Fixture.page ["h1"; "p"]
  = Ok [[Some "Title"; Some ""]; [Some "Title"; Some "x"]].
Proof. reflexivity. Qed.

Example extract_no_pairs : Fixture.extract Fixture.page [] = Throw RangeError.
Proof. reflexivity. Qed.

Example extract_spaced : Fixture.extract Fixture.spaced ["p"] = Ok [[Some "x y"]].
Proof. reflexivity. Qed.

(** The first selector is the base: its suffix is the empty selector, and
    the query within the first base element raises. *)
Example extract_menu :
  suffixSelectorsOf (Fixture.pairOf <$> [".item"; ".item .title"]) ".item" = [""; ".title"]
  ∧ Fixture.extract Fixture.menu [".item"; ".item .title"] = Throw SyntaxError.
Proof. split; reflexivity. Qed.

(** ** [diffAndMerge] *)

Section DiffAndMerge.
Implicit Types (content : gset string) (rows kept : list row) (r : row).

Lemma diffAndMerge_cons_seen content r rows :
  joinRow r ∈ content →
  diffAndMerge content (r :: rows) = diffAndMerge content rows.
Proof. intros Hin. simpl. by rewrite decide_True. Qed.

Lemma diffAndMerge_cons_new content r rows :
  joinRow r ∉ content →
  diffAndMerge content (r :: rows)
  = (r :: (diffAndMerge ({[joinRow r]} ∪ content) rows).1,
     (diffAndMerge ({[joinRow r]} ∪ content) rows).2).
Proof.
  intros Hin. simpl. rewrite decide_False by done.
  by destruct (diffAndMerge _ rows).
Qed.

(** The set after a pass: the set before and the keys of the returned
    rows. *)
Lemma diffAndMerge_content content rows :
  (diffAndMerge content rows).2
  = content ∪ list_to_set (joinRow <$> (diffAndMerge content rows).1).
Proof.
  revert content. induction rows as [|r rows IH]; intros content.
  - simpl. set_solver.
  - destruct (decide (joinRow r ∈ content)) as [Hin|Hin].
    + rewrite diffAndMerge_cons_seen by done. apply IH.
    + rewrite diffAndMerge_cons_new by done. simpl. rewrite IH. set_solver.
Qed.

Lemma diffAndMerge_mono content rows : content ⊆ (diffAndMerge content rows).2.
Proof. rewrite diffAndMerge_content. set_solver. Qed.

(** Every computed row is in the set after the pass. *)
Lemma diffAndMerge_records content rows r :
  r ∈ rows → joinRow r ∈ (diffAndMerge content rows).2.
Proof.
  revert content. induction rows as [|r' rows IH]; intros content Hr.
  - by apply elem_of_nil in Hr.
  - apply elem_of_cons in Hr as [->|Hr].
    + destruct (decide (joinRow r' ∈ content)) as [Hin|Hin].
      * rewrite diffAndMerge_cons_seen by done. by apply diffAndMerge_mono.
      * rewrite diffAndMerge_cons_new by done. simpl.
        apply diffAndMerge_mono. set_solver.
    + destruct (decide (joinRow r' ∈ content)) as [Hin|Hin].
      * rewrite diffAndMerge_cons_seen by done. by apply IH.
      * rewrite diffAndMerge_cons_new by done. simpl. by apply IH.
Qed.

(** Rows whose keys are all known are all dropped. *)
Lemma diffAndMerge_all_seen content rows :
  (∀ r, r ∈ rows → joinRow r ∈ content) →
  diffAndMerge content rows = ([], content).
Proof.
  induction rows as [|r rows IH]; intros Hall; [done|].
  rewrite diffAndMerge_cons_seen by (apply Hall; left).
  apply IH. intros r' Hr'. apply Hall. by right.
Qed.

(** Rows of new, pairwise different keys are all returned. *)
Lemma diffAndMerge_all_new content rows :
  NoDup (joinRow <$> rows) →
  (∀ r, r ∈ rows → joinRow r ∉ content) →
  (diffAndMerge content rows).1 = rows.
Proof.
  revert content. induction rows as [|r rows IH]; intros content Hnd Hall; [done|].
  rewrite fmap_cons in Hnd. apply NoDup_cons in Hnd as [Hr Hnd].
  rewrite diffAndMerge_cons_new by (apply Hall; left). simpl. f_equal.
  apply IH; [done|]. intros r' Hr' Hin.
  apply elem_of_union in Hin as [Hin|Hin].
  - apply elem_of_singleton in Hin. apply Hr. rewrite <- Hin.
    by apply list_elem_of_fmap_2.
  - apply (Hall r'); [by right|done].
Qed.

Lemma diffAndMerge_app content rows1 rows2 :
  diffAndMerge content (rows1 ++ rows2)
  = ((diffAndMerge content rows1).1
       ++ (diffAndMerge (diffAndMerge content rows1).2 rows2).1,
     (diffAndMerge (diffAndMerge content rows1).2 rows2).2).
Proof.
  revert content. induction rows1 as [|r rows1 IH]; intros content.
  - simpl. by destruct (diffAndMerge content rows2).
  - rewrite <- app_comm_cons.
    destruct (decide (joinRow r ∈ content)) as [Hin|Hin].
    + rewrite !diffAndMerge_cons_seen by done. apply IH.
    + rewrite !diffAndMerge_cons_new by done. simpl. by rewrite IH.
Qed.

Lemma diffAndMerge_sublist content rows :
  sublist (diffAndMerge content rows).1 rows.
Proof.
  revert content. induction rows as [|r rows IH]; intros content.
  - simpl. constructor.
  - destruct (decide (joinRow r ∈ content)) as [Hin|Hin].
    + rewrite diffAndMerge_cons_seen by done. by apply sublist_cons.
    + rewrite diffAndMerge_cons_new by done. simpl. by apply sublist_skip.
Qed.

Lemma diffAndMerge_kept_new content rows r :
  r ∈ (diffAndMerge content rows).1 → joinRow r ∉ content.
Proof.
  revert content. induction rows as [|r' rows IH]; intros content Hr.
  - by apply elem_of_nil in Hr.
  - destruct (decide (joinRow r' ∈ content)) as [Hin|Hin].
    + rewrite diffAndMerge_cons_seen in Hr by done. by apply IH.
    + rewrite diffAndMerge_cons_new in Hr by done. simpl in Hr.
      apply elem_of_cons in Hr as [->|Hr]; [done|].
      apply IH in Hr. set_solver.
Qed.

Lemma diffAndMerge_NoDup content rows :
  NoDup (joinRow <$> (diffAndMerge content rows).1).
Proof.
  revert content. induction rows as [|r rows IH]; intros content.
  - simpl. constructor.
  - destruct (decide (joinRow r ∈ content)) as [Hin|Hin].
    + rewrite diffAndMerge_cons_seen by done. apply IH.
    + rewrite diffAndMerge_cons_new by done. csimpl.
      apply NoDup_cons. split; [|apply IH].
      intros Hk. apply list_elem_of_fmap in Hk as (r' & Heq & Hr').
      apply diffAndMerge_kept_new in Hr'. set_solver.
Qed.

End DiffAndMerge.

(** C10: within one pass the returned rows are a subsequence of the computed
    rows, their comma-join keys are pairwise different (a key that occurs
    twice in the pass is returned once at most) and were all unknown before,
    and the set after the pass is the set before together with exactly the
    keys of the returned rows, so that no key is ever removed. *)
Theorem diffAndMerge_pass_invariant (content : gset string) (currentContent : list row) :
  sublist (diffAndMerge content currentContent).1 currentContent
  ∧ NoDup (joinRow <$> (diffAndMerge content currentContent).1)
  ∧ (∀ r, r ∈ (diffAndMerge content currentContent).1 → joinRow r ∉ content)
  ∧ (diffAndMerge content currentContent).2
    = content ∪ list_to_set (joinRow <$> (diffAndMerge content currentContent).1)
  ∧ content ⊆ (diffAndMerge content currentContent).2.
Proof.
  split; [apply diffAndMerge_sublist|].
  split; [apply diffAndMerge_NoDup|].
  split; [intros r; apply diffAndMerge_kept_new|].
  split; [apply diffAndMerge_content|apply diffAndMerge_mono].
Qed.

(** ** Passes of one plugin instance *)

Section Passes.
Context {node : Type}.
Variable querySelectorAll : node → string → result (list node).
Variable getAttribute : node → string → value.

Lemma apply_extracted opts content document rows :
  extractContent querySelectorAll getAttribute opts document = Ok rows →
  apply querySelectorAll getAttribute opts content document
  = Ok (diffAndMerge content rows).
Proof. intros Hrows. unfold apply. by rewrite Hrows. Qed.

(** C1, amended: a pass over a document whose computed rows are [rows]
    returns all of [rows] when the instance is fresh and the keys of [rows]
    are pairwise different; a second pass over the same document returns
    no row and leaves the set as it is; a further pass whose computed rows
    are [rows] with one row inserted, the comma-join key of which is not in
    the set, returns exactly that row and records its key. *)
Theorem apply_repeated_pass opts content document rows :
  extractContent querySelectorAll getAttribute opts document = Ok rows →
  ∃ kept content',
    apply querySelectorAll getAttribute opts content document = Ok (kept, content')
    ∧ (content = ∅ → NoDup (joinRow <$> rows) → kept = rows)
    ∧ apply querySelectorAll getAttribute opts content' document = Ok ([], content')
    ∧ ∀ document' before after r,
        rows = before ++ after →
        extractContent querySelectorAll getAttribute opts document'
        = Ok (before ++ r :: after) →
        joinRow r ∉ content' →
        apply querySelectorAll getAttribute opts content' document'
        = Ok ([r], {[joinRow r]} ∪ content').
Proof.
  intros Hrows.
  exists (diffAndMerge content rows).1, (diffAndMerge content rows).2.
  assert (Hseen : ∀ r, r ∈ rows → joinRow r ∈ (diffAndMerge content rows).2)
    by (intros r; apply diffAndMerge_records).
  split; [|split; [|split]].
  - rewrite (apply_extracted _ _ _ _ Hrows). by destruct (diffAndMerge content rows).
  - intros -> Hnd. apply diffAndMerge_all_new; [done|]. intros r _. set_solver.
  - rewrite (apply_extracted _ _ _ _ Hrows). by rewrite diffAndMerge_all_seen.
  - intros document' before after r -> Hrows' Hnew.
    rewrite (apply_extracted _ _ _ _ Hrows').
    rewrite diffAndMerge_app.
    rewrite (diffAndMerge_all_seen _ before)
      by (intros r' Hr'; apply Hseen, elem_of_app; by left).
    simpl. rewrite decide_False by done.
    rewrite (diffAndMerge_all_seen _ after); [done|].
    intros r' Hr'. apply elem_of_union_r, Hseen, elem_of_app. by right.
Qed.

End Passes.

Lemma apply_repeated_pass_witness :
  ∃ kept content',
    Fixture.pass Fixture.listing1 ["h1"; "p"] ∅ = Ok (kept, content')
    ∧ kept = [[Some "a,b"; Some "c"]]
    ∧ Fixture.pass Fixture.listing1 ["h1"; "p"] content' = Ok ([], content')
    ∧ Fixture.pass Fixture.listing3 ["h1"; "p"] content'
      = Ok ([[Some "d"; Some "e"]], {["d,e"]} ∪ content').
Proof.
  destruct (apply_repeated_pass Fixture.querySelectorAll Fixture.getAttribute
              (Fixture.opts ["h1"; "p"]) ∅ (Fixture.listing1, 0)
              [[Some "a,b"; Some "c"]] eq_refl)
    as (kept & content' & Hfirst & Hall & Hsecond & Hthird).
  exists kept, content'. split; [exact Hfirst|]. split.
  - apply Hall; [reflexivity|]. apply NoDup_singleton.
  - split; [exact Hsecond|].
    apply (Hthird (Fixture.listing3, 0) [[Some "a,b"; Some "c"]] []
             [Some "d"; Some "e"]); [reflexivity|reflexivity|].
    unfold Fixture.pass in Hfirst. vm_compute in Hfirst.
    injection Hfirst as _ <-. vm_compute. intros H. discriminate H.
Defined.

(** C1 as stated fails: the second row of [listing2] is a new row, different
    from the one already returned, but its key is the key of that row, and
    the pass returns nothing. *)
Lemma apply_new_row_key_collision :
  Fixture.extract Fixture.listing1 ["h1"; "p"] = Ok [[Some "a,b"; Some "c"]]
  ∧ Fixture.extract Fixture.listing2 ["h1"; "p"]
    = Ok [[Some "a,b"; Some "c"]; [Some "a"; Some "b,c"]]
  ∧ [Some "a"; Some "b,c"] ≠ [Some "a,b"; Some "c"]
  ∧ Fixture.pass Fixture.listing1 ["h1"; "p"] ∅
    = Ok ([[Some "a,b"; Some "c"]], {["a,b,c"]})
  ∧ Fixture.pass Fixture.listing1 ["h1"; "p"] {["a,b,c"]} = Ok ([], {["a,b,c"]})
  ∧ Fixture.pass Fixture.listing2 ["h1"; "p"] {["a,b,c"]} = Ok ([], {["a,b,c"]})
  ∧ ¬ ∃ content', Fixture.pass Fixture.listing2 ["h1"; "p"] {["a,b,c"]}
                  = Ok ([[Some "a"; Some "b,c"]], content').
Proof.
  repeat split; try (vm_compute; reflexivity); try discriminate.
  intros [content' H]. vm_compute in H. discriminate H.
Qed.

(** ** [transformToContentRows] *)

Section Alignment.
Implicit Types (column : list value) (contentBySelector : list (list value)).

Lemma padColumn_length maxLength column :
  length column ≤ maxLength → length (padColumn maxLength column) = maxLength.
Proof.
  intros Hle. unfold padColumn.
  destruct (Nat.ltb_spec (length column) maxLength) as [Hlt|Hge].
  - rewrite length_app, length_replicate. lia.
  - lia.
Qed.

Lemma padColumn_lookup_lt maxLength column idx :
  idx < length column → padColumn maxLength column !! idx = column !! idx.
Proof.
  intros Hidx. unfold padColumn.
  destruct (length column <? maxLength); [|done].
  by rewrite lookup_app_l.
Qed.

(** The value [lastVal] of the padding loop is the last value of the
    column, or [''] for an empty column. *)
Lemma padColumn_lookup_ge maxLength column idx :
  length column ≤ idx < maxLength →
  padColumn maxLength column !! idx = Some (default (Some "") (last column)).
Proof.
  intros [Hge Hlt]. unfold padColumn.
  destruct (Nat.ltb_spec (length column) maxLength) as [Hlen|Hlen]; [|lia].
  rewrite lookup_app_r by done.
  rewrite lookup_replicate_2 by lia. f_equal.
  destruct (Nat.ltb_spec 0 (length column)) as [Hpos|Hzero].
  - rewrite last_lookup.
    replace (length column - 1) with (pred (length column)) by lia.
    destruct (lookup_lt_is_Some_2 column (pred (length column))) as [v Hv]; [lia|].
    by rewrite Hv.
  - destruct column; [done|simpl in Hzero; lia].
Qed.

Lemma max_list_length_le contentBySelector column :
  column ∈ contentBySelector →
  length column ≤ max_list (length <$> contentBySelector).
Proof.
  intros Hin. apply max_list_elem_of_le. by apply list_elem_of_fmap_2.
Qed.

(** The rows computed for a non-empty list of columns. *)
Lemma transformToContentRows_Ok contentBySelector :
  contentBySelector ≠ [] →
  transformToContentRows contentBySelector
  = Ok ((λ idx, (λ column, default None (column !! idx))
                  <$> (padColumn (max_list (length <$> contentBySelector))
                         <$> contentBySelector))
          <$> seq 0 (max_list (length <$> contentBySelector))).
Proof. by destruct contentBySelector. Qed.

Lemma transformToContentRows_cell contentBySelector rows i column idx :
  transformToContentRows contentBySelector = Ok rows →
  contentBySelector !! i = Some column →
  idx < max_list (length <$> contentBySelector) →
  rows !! idx ≫= (λ r, r !! i)
  = Some (default None
            (padColumn (max_list (length <$> contentBySelector)) column !! idx)).
Proof.
  intros Hrows Hcol Hidx.
  rewrite transformToContentRows_Ok in Hrows
    by (intros ->; by rewrite lookup_nil in Hcol).
  injection Hrows as <-.
  rewrite list_lookup_fmap, lookup_seq_lt by done. simpl.
  by rewrite !list_lookup_fmap, Hcol.
Qed.

Lemma transformToContentRows_length contentBySelector rows :
  transformToContentRows contentBySelector = Ok rows →
  length rows = max_list (length <$> contentBySelector).
Proof.
  intros Hrows. destruct (decide (contentBySelector = [])) as [->|Hne]; [done|].
  rewrite transformToContentRows_Ok in Hrows by done.
  injection Hrows as <-. by rewrite length_fmap, length_seq.
Qed.

Lemma transformToContentRows_width contentBySelector rows r :
  transformToContentRows contentBySelector = Ok rows →
  r ∈ rows → length r = length contentBySelector.
Proof.
  intros Hrows Hr. destruct (decide (contentBySelector = [])) as [->|Hne]; [done|].
  rewrite transformToContentRows_Ok in Hrows by done. injection Hrows as <-.
  apply list_elem_of_fmap in Hr as (idx & -> & _). by rewrite !length_fmap.
Qed.

(** A cell below the end of its column is the value of the column. *)
Lemma transformToContentRows_own contentBySelector rows i column idx :
  transformToContentRows contentBySelector = Ok rows →
  contentBySelector !! i = Some column →
  idx < length column →
  rows !! idx ≫= (λ r, r !! i) = column !! idx.
Proof.
  intros Hrows Hcol Hidx.
  assert (Hmax : idx < max_list (length <$> contentBySelector)).
  { pose proof (max_list_length_le contentBySelector column
                  (list_elem_of_lookup_2 _ _ _ Hcol)). lia. }
  rewrite (transformToContentRows_cell _ _ _ _ _ Hrows Hcol Hmax).
  rewrite padColumn_lookup_lt by done.
  destruct (lookup_lt_is_Some_2 column idx Hidx) as [v Hv]. by rewrite Hv.
Qed.

(** A cell past the end of its column is the padding value. *)
Lemma transformToContentRows_padded contentBySelector rows i column idx :
  transformToContentRows contentBySelector = Ok rows →
  contentBySelector !! i = Some column →
  length column ≤ idx < max_list (length <$> contentBySelector) →
  rows !! idx ≫= (λ r, r !! i) = Some (default (Some "") (last column)).
Proof.
  intros Hrows Hcol [Hge Hlt].
  rewrite (transformToContentRows_cell _ _ _ _ _ Hrows Hcol Hlt).
  by rewrite padColumn_lookup_ge.
Qed.

End Alignment.

(** C2: for N >= 1 columns the alignment returns rows, their number is the
    greatest column length, every row has N cells, cell [i] of row [idx] is
    the value of column [i] at [idx] where the column has one, and otherwise
    (the padded tail of a shorter column) the last value of the column, or the
    empty string for an empty column. *)
Theorem transformToContentRows_aligned (contentBySelector : list (list value)) :
  contentBySelector ≠ [] →
  ∃ rows,
    transformToContentRows contentBySelector = Ok rows
    ∧ length rows = max_list (length <$> contentBySelector)
    ∧ (∀ r, r ∈ rows → length r = length contentBySelector)
    ∧ (∀ i column idx,
         contentBySelector !! i = Some column →
         idx < length column →
         rows !! idx ≫= (λ r, r !! i) = column !! idx)
    ∧ (∀ i column idx,
         contentBySelector !! i = Some column →
         length column ≤ idx < max_list (length <$> contentBySelector) →
         rows !! idx ≫= (λ r, r !! i) = Some (default (Some "") (last column))).
Proof.
  intros Hne.
  pose proof (transformToContentRows_Ok contentBySelector Hne) as Hrows.
  eexists. split; [exact Hrows|].
  split; [by apply transformToContentRows_length|].
  split; [intros r; by apply transformToContentRows_width|].
  split.
  - intros i column idx. by apply transformToContentRows_own.
  - intros i column idx. by apply transformToContentRows_padded.
Qed.

Lemma transformToContentRows_aligned_witness :
  ∃ rows,
    transformToContentRows [[Some "a"; Some "b"; Some "c"]; [Some "x"]; []] = Ok rows
    ∧ length rows = 3
    ∧ (∀ r, r ∈ rows → length r = 3)
    ∧ rows !! 2 ≫= (λ r, r !! 0) = Some (Some "c")
    ∧ rows !! 2 ≫= (λ r, r !! 1) = Some (Some "x")
    ∧ rows !! 1 ≫= (λ r, r !! 2) = Some (Some "").
Proof.
  destruct (transformToContentRows_aligned
              [[Some "a"; Some "b"; Some "c"]; [Some "x"]; []])
    as (rows & Hrows & Hlen & Hcols & Hown & Hpad); [discriminate|].
  exists rows. split; [exact Hrows|]. split; [exact Hlen|]. split; [exact Hcols|].
  split; [|split].
  - apply (Hown 0 [Some "a"; Some "b"; Some "c"] 2); [reflexivity|simpl; lia].
  - apply (Hpad 1 [Some "x"] 2); [reflexivity|vm_compute; lia].
  - apply (Hpad 2 [] 1); [reflexivity|vm_compute; lia].
Defined.

(** ** [getSelectorBase] *)

Section SelectorBase.
Implicit Types (cssFragments selectors : list string) (pairs : list SelectorPair).

Lemma split_not_nil sep s : split sep s ≠ [].
Proof.
  destruct s as [|c s]; simpl; [done|].
  destruct (Ascii.eqb c sep); [done|]. by destruct (split sep s).
Qed.

(** What the loop returns is the candidate it started from or a candidate
    built in one of its iterations, and every selector starts with a
    candidate built in an iteration that accepted it. *)
Lemma getSelectorBase_loop_Some cssFragments selectors todo i selectorBase base :
  getSelectorBase_loop cssFragments selectors todo i selectorBase = Some base →
  selectorBase = Some base
  ∨ ∃ k, i < k ≤ i + todo
         ∧ base = join " " (take k cssFragments)
         ∧ forallb (λ selector, startsWith selector base) selectors = true.
Proof.
  revert i selectorBase.
  induction todo as [|todo IH]; intros i selectorBase Hloop; simpl in Hloop.
  - by left.
  - destruct (forallb _ selectors) eqn:Hall in Hloop; [|by left].
    apply IH in Hloop as [Hacc|(k & Hk & Hbase & Hstarts)].
    + right. exists (i + 1). injection Hacc as <-.
      split; [lia|]. by split.
    + right. exists k. split; [lia|]. by split.
Qed.

Lemma getSelectorBase_Some pairs base :
  getSelectorBase pairs = Ok (Some base) →
  ∃ pair0 k,
    head pairs = Some pair0
    ∧ 0 < k ≤ length (split " " (contentSelector pair0))
    ∧ base = join " " (take k (split " " (contentSelector pair0)))
    ∧ Forall (λ selectorPair, startsWith (contentSelector selectorPair) base = true)
             pairs.
Proof.
  unfold getSelectorBase. destruct pairs as [|pair0 pairs]; [done|].
  rewrite fmap_cons. intros Hbase. injection Hbase as Hloop.
  apply getSelectorBase_loop_Some in Hloop as [?|(k & Hk & Hbase & Hall)]; [done|].
  exists pair0, k. split; [done|]. split; [lia|]. split; [done|].
  rewrite <- fmap_cons, forallb_forall in Hall.
  apply Forall_forall. intros selectorPair Hin. apply Hall.
  apply list_elem_of_In. by apply list_elem_of_fmap_2.
Qed.

End SelectorBase.

(** C6: a base returned by the inference is a prefix, under [startsWith], of
    the [contentSelector] of every selector pair. *)
Theorem getSelectorBase_startsWith (pairs : list SelectorPair) (base : string) :
  getSelectorBase pairs = Ok (Some base) →
  Forall (λ selectorPair, startsWith (contentSelector selectorPair) base = true) pairs.
Proof.
  intros Hbase.
  by destruct (getSelectorBase_Some pairs base Hbase) as (? & ? & _ & _ & _ & Hall).
Qed.

Lemma getSelectorBase_startsWith_witness :
  Forall (λ selectorPair, startsWith (contentSelector selectorPair) ".list .item" = true)
    (Fixture.pairOf <$> [".list .item .title"; ".list .item .price"; ".list .item"]).
Proof.
  apply (getSelectorBase_startsWith
           (Fixture.pairOf <$> [".list .item .title"; ".list .item .price"; ".list .item"])
           ".list .item").
  reflexivity.
Defined.

(** C3 does not hold of the code: the selectors [.item .title] and
    [.items .price] share no leading fragment, yet [.item] is returned, which
    is no run of fragments of the second selector.  [extractContent] keeps
    it when an element matches it, queries the second column with the suffix
    [s .price], and the price of the document is lost. *)
Theorem getSelectorBase_not_fragment_prefix :
  getSelectorBase (Fixture.pairOf <$> [".item .title"; ".items .price"]) = Ok (Some ".item")
  ∧ split " " ".item" = [".item"]
  ∧ split " " ".items .price" = [".items"; ".price"]
  ∧ ¬ (split " " ".item" `prefix_of` split " " ".items .price")
  ∧ head (split " " ".item .title") ≠ head (split " " ".items .price")
  ∧ inferSelectorBase Fixture.querySelectorAll
      (Fixture.pairOf <$> [".item .title"; ".items .price"]) (Fixture.shelves, 0)
    = Ok (Some ".item")
  ∧ suffixSelectorsOf (Fixture.pairOf <$> [".item .title"; ".items .price"]) ".item"
    = [".title"; "s .price"]
  ∧ Fixture.querySelectorAll (Fixture.shelves, 0) ".items .price"
    = Ok [(Fixture.shelves, 4)]
  ∧ Fixture.getAttribute (Fixture.shelves, 4) "innerText" = Some "P1"
  ∧ Fixture.extract Fixture.shelves [".item .title"; ".items .price"]
    = Ok [[Some "T1"; Some ""]].
Proof.
  split; [reflexivity|]. split; [reflexivity|]. split; [reflexivity|].
  split; [intros [k Hk]; discriminate Hk|].
  split; [discriminate|]. repeat split; reflexivity.
Qed.

(** ** [test] *)

Example test_without_opts :
  test (Project := unit) (λ contentType : string, contentType) None () (Some "text/html")
  = Throw TypeError.
Proof. reflexivity. Qed.

Example test_html_resource :
  test (Project := unit) (λ contentType : string, contentType)
       (Fixture.opts ["h1"]) () (Some "text/html")
  = Ok true.
Proof. reflexivity. Qed.

(** C9: for every project and configuration, also one whose [opts] cannot be
    read, [test] on an absent resource returns [false] and raises nothing:
    the selector pairs and the content type are not looked at. *)
Theorem test_absent_resource {Project Resource : Type} (contentType : Resource → string)
    (opts : option Opts) (project : Project) :
  test contentType opts project None = Ok false.
Proof. reflexivity. Qed.

(** ** [extractContent] *)

Section ExtractContent.
Context {node : Type}.
Variable querySelectorAll : node → string → result (list node).
Variable getAttribute : node → string → value.
Implicit Types (pairs : list SelectorPair) (document baseElm : node).

Lemma reduce_app {A B : Type} (f : B → A → result B) (l1 l2 : list A) (acc : B) :
  reduce f (l1 ++ l2) acc = reduce f l1 acc ≫= reduce f l2.
Proof.
  revert acc. induction l1 as [|x l1 IH]; intros acc; [done|].
  simpl. destruct (f acc x) as [acc'|e]; [apply IH|done].
Qed.

(** A map returns when its body returns on every element, and raises what
    its body raises first. *)
Lemma mapM_Ok {A B : Type} (f : A → result B) (l : list A) (ys : list B) :
  mapM f l = Ok ys ↔ Forall2 (λ x y, f x = Ok y) l ys.
Proof.
  revert ys. induction l as [|x l IH]; intros ys; simpl.
  - split; [intros Heq; injection Heq as <-; constructor|].
    intros Hall. by apply Forall2_nil_inv_l in Hall as ->.
  - destruct (f x) as [y|e] eqn:Hx; simpl.
    + destruct (mapM f l) as [ys'|e] eqn:Hl; simpl.
      * split.
        -- intros Heq. injection Heq as <-. constructor; [done|by apply IH].
        -- intros Hall. apply Forall2_cons_inv_l in Hall as (y' & ys'' & Hy & Hall & ->).
           apply IH in Hall. congruence.
      * split; [done|]. intros Hall.
        apply Forall2_cons_inv_l in Hall as (y' & ys'' & Hy & Hall & ->).
        apply IH in Hall. done.
    + split; [done|]. intros Hall.
      apply Forall2_cons_inv_l in Hall as (y' & ys'' & Hy & Hall & ->). congruence.
Qed.

Lemma mapM_Throw {A B : Type} (f : A → result B) (l : list A) (e : exn) :
  mapM f l = Throw e → ∃ x, x ∈ l ∧ f x = Throw e.
Proof.
  induction l as [|x l IH]; [done|]. simpl.
  destruct (f x) as [y|e'] eqn:Hx; simpl.
  - destruct (mapM f l) as [ys|e'] eqn:Hl; simpl; [done|].
    intros Heq. injection Heq as ->. destruct IH as (x' & Hin & Hx'); [done|].
    exists x'. split; [by right|done].
  - intros Heq. injection Heq as ->. exists x. split; [by left|done].
Qed.

Lemma mapM_fmap {A B C : Type} (f : B → result C) (g : A → B) (l : list A) :
  mapM f (g <$> l) = mapM (λ x, f (g x)) l.
Proof. induction l as [|x l IH]; [done|]. csimpl. by rewrite IH. Qed.

Lemma zip_fmap_self {A B : Type} (f : A → B) (l : list A) :
  zip (f <$> l) l = (λ x, (f x, x)) <$> l.
Proof. induction l as [|x l IH]; [done|]. csimpl. by rewrite IH. Qed.

(** The columns of a base element, selector pair by selector pair. *)
Lemma contentBySelectorOf_suffixes pairs base baseElm :
  contentBySelectorOf querySelectorAll getAttribute pairs
    (suffixSelectorsOf pairs base) baseElm
  = mapM (λ selectorPair,
            scopedColumn querySelectorAll getAttribute baseElm
              (trim (replace (contentSelector selectorPair) base "")) selectorPair)
      pairs.
Proof.
  unfold contentBySelectorOf, suffixSelectorsOf. by rewrite zip_fmap_self, mapM_fmap.
Qed.

(** In both modes there is one column per selector pair. *)
Lemma contentBySelectorOf_length pairs base baseElm columns :
  contentBySelectorOf querySelectorAll getAttribute pairs
    (suffixSelectorsOf pairs base) baseElm = Ok columns →
  length columns = length pairs.
Proof.
  rewrite contentBySelectorOf_suffixes, mapM_Ok. intros Hall.
  symmetry. by eapply Forall2_length.
Qed.

Lemma globalColumns_length pairs document columns :
  globalColumns querySelectorAll getAttribute pairs document = Ok columns →
  length columns = length pairs.
Proof.
  unfold globalColumns. rewrite mapM_Ok. intros Hall.
  symmetry. by eapply Forall2_length.
Qed.

(** Every column of a base element is a filtered list of scraped values. *)
Lemma contentBySelectorOf_columns pairs suffixSelectors baseElm columns column :
  contentBySelectorOf querySelectorAll getAttribute pairs suffixSelectors baseElm
  = Ok columns →
  column ∈ columns →
  ∃ contentProperty elms,
    column = List.filter truthy (scrapeValue getAttribute contentProperty <$> elms).
Proof.
  unfold contentBySelectorOf. rewrite mapM_Ok. intros Hall Hcol.
  apply list_elem_of_lookup in Hcol as [i Hcol].
  destruct (Forall2_lookup_r _ _ _ _ _ Hall Hcol) as (entry & _ & Hentry).
  unfold scopedColumn in Hentry.
  destruct (querySelectorAll baseElm entry.1) as [elms|e]; [|done].
  simpl in Hentry. injection Hentry as <-. by eexists _, _.
Qed.

Lemma contentBySelectorOf_truthy pairs suffixSelectors baseElm columns column v :
  contentBySelectorOf querySelectorAll getAttribute pairs suffixSelectors baseElm
  = Ok columns →
  column ∈ columns → v ∈ column → truthy v = true.
Proof.
  intros Hcols Hcol Hv.
  destruct (contentBySelectorOf_columns _ _ _ _ _ Hcols Hcol) as (prop & elms & ->).
  apply list_elem_of_In, filter_In in Hv. by destruct Hv.
Qed.

Lemma find_None_all_nil (columns : list (list value)) :
  Forall (λ column, column = []) columns →
  List.find (λ colEntry, 0 <? length colEntry) columns = None.
Proof. induction 1 as [|column columns -> _ IH]; [done|]. by simpl. Qed.

Lemma filter_truthy_nil (values : list value) :
  Forall (λ v, truthy v = false) values → List.filter truthy values = [].
Proof. induction 1 as [|v values Hv _ IH]; [done|]. simpl. by rewrite Hv. Qed.

(** What [inferSelectorBase] keeps is a non-empty string returned by
    [getSelectorBase] for two pairs at least, matched by an element. *)
Lemma inferSelectorBase_Some pairs document base :
  inferSelectorBase querySelectorAll pairs document = Ok (Some base) →
  1 < length pairs
  ∧ getSelectorBase pairs = Ok (Some base)
  ∧ truthy (Some base) = true
  ∧ ∃ elm elms, querySelectorAll document base = Ok (elm :: elms).
Proof.
  unfold inferSelectorBase.
  destruct (Nat.ltb_spec 1 (length pairs)) as [Hlen|Hlen]; [|done].
  destruct (getSelectorBase pairs) as [[candidate|]|e]; simpl; try done.
  destruct (negb (String.eqb candidate "")) eqn:Htruthy; simpl; [|done].
  destruct (querySelectorAll document candidate) as [[|elm elms]|e] eqn:Hquery;
    simpl; try done.
  intros Heq. injection Heq as <-. repeat split; try done. by exists elm, elms.
Qed.

Lemma extractContent_scoped opts pairs document base :
  selectorPairs opts = Some pairs →
  inferSelectorBase querySelectorAll pairs document = Ok (Some base) →
  extractContent querySelectorAll getAttribute (Some opts) document
  = extractScoped querySelectorAll getAttribute pairs base document.
Proof.
  intros Hpairs Hbase. unfold extractContent. simpl. rewrite Hpairs, Hbase. simpl.
  apply inferSelectorBase_Some in Hbase as (_ & _ & Htruthy & _).
  simpl in Htruthy. by rewrite Htruthy.
Qed.

Lemma extractContent_global opts pairs document :
  selectorPairs opts = Some pairs →
  inferSelectorBase querySelectorAll pairs document = Ok None →
  extractContent querySelectorAll getAttribute (Some opts) document
  = extractGlobal querySelectorAll getAttribute pairs document.
Proof. intros Hpairs Hbase. unfold extractContent. simpl. by rewrite Hpairs, Hbase. Qed.

(** A single column is turned into one row per value. *)
Lemma transformToContentRows_single (column : list value) :
  transformToContentRows [column] = Ok ((λ v, [v]) <$> column).
Proof.
  unfold transformToContentRows. f_equal. simpl.
  rewrite Nat.max_0_r. unfold padColumn. rewrite Nat.ltb_irrefl.
  apply list_eq. intros idx. rewrite !list_lookup_fmap.
  destruct (decide (idx < length column)) as [Hlt|Hge].
  - rewrite lookup_seq_lt by done.
    destruct (lookup_lt_is_Some_2 column idx Hlt) as [v Hv].
    simpl. by rewrite Hv.
  - rewrite lookup_seq_ge by lia. by rewrite lookup_ge_None_2 by lia.
Qed.

End ExtractContent.

Lemma max_list_attained (ns : list nat) : ns ≠ [] → max_list ns ∈ ns.
Proof.
  induction ns as [|n [|n' ns] IH]; intros Hne; [done| |].
  - simpl. rewrite Nat.max_0_r. by left.
  - change (max_list (n :: n' :: ns)) with (n `max` max_list (n' :: ns)).
    destruct (Nat.max_spec n (max_list (n' :: ns))) as [[_ ->]|[_ ->]];
      [right; by apply IH|by left].
Qed.

(** Aligned columns of non-empty values give rows with a non-empty value. *)
Lemma transformToContentRows_valued (columns : list (list value)) (newRows : list row) :
  (∀ column v, column ∈ columns → v ∈ column → truthy v = true) →
  transformToContentRows columns = Ok newRows →
  Forall (λ r : row, ∃ v, v ∈ r ∧ truthy v = true) newRows.
Proof.
  intros Htruthy Hnew.
  assert (Hne : columns ≠ []) by (by intros ->).
  pose proof (transformToContentRows_length _ _ Hnew) as Hlen.
  pose proof (transformToContentRows_own columns newRows) as Hown.
  apply Forall_forall. intros r Hr.
  apply list_elem_of_lookup in Hr as [idx Hidx].
  pose proof (lookup_lt_Some _ _ _ Hidx) as Hlt. rewrite Hlen in Hlt.
  assert (Hmax : max_list (length <$> columns) ∈ length <$> columns).
  { apply max_list_attained. intros Hnil. apply fmap_nil_inv in Hnil. done. }
  apply list_elem_of_fmap in Hmax as (column & Hcol & Hin).
  apply list_elem_of_lookup in Hin as [i Hi].
  pose proof (Hown i column idx Hnew Hi ltac:(lia)) as Hcell.
  rewrite Hidx in Hcell. simpl in Hcell.
  destruct (lookup_lt_is_Some_2 column idx ltac:(lia)) as [v Hv].
  rewrite Hv in Hcell.
  exists v. split; [by eapply list_elem_of_lookup_2|].
  apply (Htruthy column v); [by eapply list_elem_of_lookup_2|].
  by eapply list_elem_of_lookup_2.
Qed.

Example getSelectorBase_single_pair :
  getSelectorBase [Fixture.pairOf ".list .item"] = Ok (Some ".list .item").
Proof. reflexivity. Qed.

Section Modes.
Context {node : Type}.
Variable querySelectorAll : node → string → result (list node).
Variable getAttribute : node → string → value.
Implicit Types (pairs : list SelectorPair) (document baseElm : node).

(** The base kept by [extractContent] is one returned by [getSelectorBase]:
    every selector starts with it. *)
Lemma inferSelectorBase_prefix pairs document base :
  inferSelectorBase querySelectorAll pairs document = Ok (Some base) →
  Forall (λ selectorPair, startsWith (contentSelector selectorPair) base = true) pairs.
Proof.
  intros Hbase. apply inferSelectorBase_Some in Hbase as (_ & Hbase & _).
  by destruct (getSelectorBase_Some pairs base Hbase) as (? & ? & _ & _ & _ & Hall).
Qed.

(** C7: with exactly one selector pair no base is inferred
    ([getSelectorBase] is not called and the document is not asked for a
    base), and the rows are those of the one selector queried on the
    document itself with its whole [contentSelector]: one row per matched
    element, and the exception of that query if it raises. *)
Theorem extractContent_single_pair (opts : Opts) pairs document :
  selectorPairs opts = Some pairs →
  length pairs = 1 →
  inferSelectorBase querySelectorAll pairs document = Ok None
  ∧ ∃ selectorPair,
      pairs = [selectorPair]
      ∧ extractContent querySelectorAll getAttribute (Some opts) document
        = (elms ← querySelectorAll document (contentSelector selectorPair);
           transformToContentRows
             [scrapeValue getAttribute (contentProperty selectorPair)
                <$> (elms : list node)])
      ∧ extractContent querySelectorAll getAttribute (Some opts) document
        = (elms ← querySelectorAll document (contentSelector selectorPair);
           Ok ((λ v, [v])
                 <$> (scrapeValue getAttribute (contentProperty selectorPair)
                        <$> (elms : list node)))).
Proof.
  intros Hpairs Hlen.
  destruct pairs as [|selectorPair [|? ?]]; try discriminate Hlen.
  assert (Hbase : inferSelectorBase querySelectorAll [selectorPair] document = Ok None)
    by done.
  split; [exact Hbase|]. exists selectorPair. split; [done|].
  rewrite (extractContent_global _ _ _ _ _ Hpairs Hbase).
  unfold extractGlobal, globalColumns, globalColumn. simpl.
  destruct (querySelectorAll document (contentSelector selectorPair)) as [elms|e];
    [|done].
  simpl. split; [done|apply transformToContentRows_single].
Qed.

(** C8: in scoped mode a base element under which every scraped value of
    every selector is empty or absent adds no row, whatever the rows
    gathered so far, and the pass returns what it returns for the other
    base elements alone. *)
Theorem extractContent_empty_base_element (opts : Opts) pairs base document
    (before after : list node) baseElm :
  selectorPairs opts = Some pairs →
  inferSelectorBase querySelectorAll pairs document = Ok (Some base) →
  querySelectorAll document base = Ok (before ++ baseElm :: after) →
  (∀ selectorPair,
     selectorPair ∈ pairs →
     ∃ elms,
       querySelectorAll baseElm (trim (replace (contentSelector selectorPair) base ""))
       = Ok elms
       ∧ ∀ elm, elm ∈ elms →
           truthy (scrapeValue getAttribute (contentProperty selectorPair) elm) = false) →
  (∀ rows,
     scrapeBaseElm querySelectorAll getAttribute pairs
       (suffixSelectorsOf pairs base) rows baseElm = Ok rows)
  ∧ extractContent querySelectorAll getAttribute (Some opts) document
    = reduce (scrapeBaseElm querySelectorAll getAttribute pairs
                (suffixSelectorsOf pairs base))
             (before ++ after) [].
Proof.
  intros Hpairs Hbase Hmatch Hempty.
  assert (Hcols : ∃ columns,
    contentBySelectorOf querySelectorAll getAttribute pairs
      (suffixSelectorsOf pairs base) baseElm = Ok columns
    ∧ Forall (λ column, column = []) columns).
  { rewrite contentBySelectorOf_suffixes. clear Hpairs Hbase.
    induction pairs as [|selectorPair pairs IH]; [by exists []|].
    destruct (Hempty selectorPair) as (elms & Hquery & Hfalsy); [by left|].
    destruct IH as (columns & Hcolumns & Hnil).
    { intros selectorPair' Hin. apply Hempty. by right. }
    exists ([] :: columns). split; [|by constructor].
    simpl. unfold scopedColumn in *. rewrite Hquery. simpl.
    rewrite filter_truthy_nil, Hcolumns; [done|].
    apply Forall_fmap, Forall_forall. intros elm Helm. by apply Hfalsy. }
  destruct Hcols as (columns & Hcolumns & Hnil).
  assert (Hskip : ∀ rows,
    scrapeBaseElm querySelectorAll getAttribute pairs
      (suffixSelectorsOf pairs base) rows baseElm = Ok rows).
  { intros rows. unfold scrapeBaseElm. rewrite Hcolumns. simpl.
    by rewrite find_None_all_nil. }
  split; [exact Hskip|].
  rewrite (extractContent_scoped _ _ _ _ _ _ Hpairs Hbase).
  unfold extractScoped. rewrite Hmatch. simpl. rewrite !reduce_app.
  destruct (reduce _ before []) as [rows|e]; [|done].
  simpl. by rewrite Hskip.
Qed.

(** What a base element adds when the reducer returns: nothing, or the
    aligned rows of its columns. *)
Lemma scrapeBaseElm_Ok pairs suffixSelectors rows baseElm rows' :
  scrapeBaseElm querySelectorAll getAttribute pairs suffixSelectors rows baseElm
  = Ok rows' →
  ∃ columns newRows,
    contentBySelectorOf querySelectorAll getAttribute pairs suffixSelectors baseElm
    = Ok columns
    ∧ rows' = rows ++ newRows
    ∧ (newRows = [] ∨ transformToContentRows columns = Ok newRows).
Proof.
  unfold scrapeBaseElm.
  destruct (contentBySelectorOf _ _ pairs suffixSelectors baseElm)
    as [columns|e]; [|done].
  simpl. destruct (List.find _ columns).
  - destruct (transformToContentRows columns) as [newRows|e] eqn:Hnew; [|done].
    simpl. intros Heq. injection Heq as <-. exists columns, newRows. by auto.
  - intros Heq. injection Heq as <-. exists columns, []. by rewrite app_nil_r; auto.
Qed.

(** A property of the rows of every aligned base element is a property of
    the rows of the scoped pass. *)
Lemma reduce_scrape_Forall (P : row → Prop) pairs suffixSelectors :
  (∀ baseElm columns newRows,
     contentBySelectorOf querySelectorAll getAttribute pairs suffixSelectors baseElm
     = Ok columns →
     transformToContentRows columns = Ok newRows → Forall P newRows) →
  ∀ (elms : list node) acc rows,
    Forall P acc →
    reduce (scrapeBaseElm querySelectorAll getAttribute pairs suffixSelectors) elms acc
    = Ok rows →
    Forall P rows.
Proof.
  intros Hnew elms. induction elms as [|baseElm elms IH]; intros acc rows Hacc Hrows.
  - injection Hrows as <-. done.
  - cbn [reduce] in Hrows.
    destruct (scrapeBaseElm _ _ pairs suffixSelectors acc baseElm)
      as [acc'|e] eqn:Hstep; [|done].
    apply scrapeBaseElm_Ok in Hstep as (columns & newRows & Hcols & -> & Hrows').
    apply (IH (acc ++ newRows) rows); [|done].
    apply Forall_app. split; [done|].
    destruct Hrows' as [->|Hrows']; [done|by eapply Hnew].
Qed.

(** Scoped mode returns no row without a non-empty value: the columns of a
    base element hold non-empty values only. *)
Lemma extractScoped_valued pairs base document rows :
  extractScoped querySelectorAll getAttribute pairs base document = Ok rows →
  Forall (λ r : row, ∃ v, v ∈ r ∧ truthy v = true) rows.
Proof.
  unfold extractScoped.
  destruct (querySelectorAll document base) as [baseElms|e]; [|done]. simpl.
  apply reduce_scrape_Forall; [|by apply Forall_nil].
  intros baseElm columns newRows Hcols. apply transformToContentRows_valued.
  intros column v. by eapply contentBySelectorOf_truthy.
Qed.

End Modes.

Lemma extractContent_single_pair_witness :
  inferSelectorBase Fixture.querySelectorAll [Fixture.pairOf "p"] (Fixture.page, 0) = Ok None
  ∧ Fixture.extract Fixture.page ["p"] = Ok [[Some ""]; [Some "x"]].
Proof.
  destruct (extractContent_single_pair Fixture.querySelectorAll Fixture.getAttribute
              {| domRead := Some true; selectorPairs := Some [Fixture.pairOf "p"] |}
              [Fixture.pairOf "p"] (Fixture.page, 0) eq_refl eq_refl)
    as (Hbase & selectorPair & Hpair & _ & Hrows).
  split; [exact Hbase|]. injection Hpair as <-. exact Hrows.
Defined.

Lemma extractContent_empty_base_element_witness :
  (∀ rows,
     scrapeBaseElm Fixture.querySelectorAll Fixture.getAttribute
       (Fixture.pairOf <$> [".item .title"; ".item .price"])
       [".title"; ".price"] rows (Fixture.items, 3) = Ok rows)
  ∧ Fixture.extract Fixture.items [".item .title"; ".item .price"]
    = reduce (scrapeBaseElm Fixture.querySelectorAll Fixture.getAttribute
                (Fixture.pairOf <$> [".item .title"; ".item .price"])
                [".title"; ".price"])
             [(Fixture.items, 1); (Fixture.items, 2)] [].
Proof.
  pose proof (extractContent_empty_base_element
           Fixture.querySelectorAll Fixture.getAttribute
           {| domRead := Some true;
              selectorPairs := Some (Fixture.pairOf <$> [".item .title"; ".item .price"]) |}
           (Fixture.pairOf <$> [".item .title"; ".item .price"]) ".item"
           (Fixture.items, 0)
           [(Fixture.items, 1); (Fixture.items, 2)] [] (Fixture.items, 3)) as Hskip.
  apply Hskip; [reflexivity|reflexivity|reflexivity|].
  intros selectorPair Hpair.
  apply elem_of_cons in Hpair as [->|Hpair].
  - exists [(Fixture.items, 7)]. split; [reflexivity|].
    intros elm Helm. apply list_elem_of_singleton in Helm as ->. reflexivity.
  - apply list_elem_of_singleton in Hpair as ->.
    exists []. split; [reflexivity|]. intros elm Helm. by apply elem_of_nil in Helm.
Defined.

(** C4 does not hold of the code: in global mode the scraped values are
    trimmed but the empty ones are kept.  With the selectors [h1] and [p] on
    [page] no base is inferred, the column of [p] keeps the empty text of the
    first paragraph, and two rows come out where dropping it leaves one. *)
Theorem extractContent_global_keeps_empty_values :
  inferSelectorBase Fixture.querySelectorAll (Fixture.pairOf <$> ["h1"; "p"])
    (Fixture.page, 0) = Ok None
  ∧ globalColumns Fixture.querySelectorAll Fixture.getAttribute
      (Fixture.pairOf <$> ["h1"; "p"]) (Fixture.page, 0)
    = Ok [[Some "Title"]; [Some ""; Some "x"]]
  ∧ truthy (Some "") = false
  ∧ Fixture.extract Fixture.page ["h1"; "p"]
    = Ok [[Some "Title"; Some ""]; [Some "Title"; Some "x"]]
  ∧ transformToContentRows
      (List.filter truthy <$> [[Some "Title"]; [Some ""; Some "x"]])
    = Ok [[Some "Title"; Some "x"]].
Proof. repeat split; reflexivity. Qed.

(** C5 does not hold of the code: in global mode a row whose columns are all
    empty is returned.  With the single selector [p] on [page] the first row
    is the empty text of the first paragraph alone. *)
Theorem extractContent_global_all_empty_row :
  Fixture.extract Fixture.page ["p"] = Ok [[Some ""]; [Some "x"]]
  ∧ Forall (λ v, truthy v = false) [Some ""]
  ∧ ∃ rows r,
      Fixture.extract Fixture.page ["p"] = Ok rows
      ∧ r ∈ rows
      ∧ Forall (λ v, truthy v = false) r.
Proof.
  split; [reflexivity|]. split; [by repeat constructor|].
  exists [[Some ""]; [Some "x"]], [Some ""].
  split; [reflexivity|]. split; [by left|by repeat constructor].
Qed.

(** * Further properties of the plugin *)

(** ** The string primitives *)

Section Strings.
Implicit Types (s p rest sep : string) (c : ascii) (l : list string).

Lemma append_nil_l s : "" +:+ s = s.
Proof. reflexivity. Qed.

Lemma append_cons c s1 s2 : String c s1 +:+ s2 = String c (s1 +:+ s2).
Proof. reflexivity. Qed.

Lemma append_assoc s1 s2 s3 : (s1 +:+ s2) +:+ s3 = s1 +:+ (s2 +:+ s3).
Proof.
  induction s1 as [|c s1 IH]; [done|]. rewrite !append_cons. by rewrite IH.
Qed.

Lemma append_nil_r s : s +:+ "" = s.
Proof. induction s as [|c s IH]; [done|]. rewrite append_cons. by rewrite IH. Qed.

Lemma startsWith_append p rest : startsWith (p +:+ rest) p = true.
Proof.
  induction p as [|c p IH]; [by destruct rest|]. rewrite append_cons. simpl.
  by rewrite Ascii.eqb_refl.
Qed.

Lemma startsWith_substring s p :
  startsWith s p = true → s = p +:+ substringFrom (String.length p) s.
Proof.
  revert s. induction p as [|c p IH]; intros s Hs; [done|].
  destruct s as [|d s]; [done|]. simpl in Hs.
  destruct (Ascii.eqb_spec c d) as [->|]; [|done].
  rewrite append_cons. simpl. f_equal. by apply IH.
Qed.

Lemma startsWith_iff s p : startsWith s p = true ↔ ∃ rest, s = p +:+ rest.
Proof.
  split.
  - intros Hs. eexists. by apply startsWith_substring.
  - intros [rest ->]. apply startsWith_append.
Qed.

Lemma startsWith_trans s p q :
  startsWith s p = true → startsWith p q = true → startsWith s q = true.
Proof.
  rewrite !startsWith_iff. intros [rest ->] [rest' ->].
  exists (rest' +:+ rest). apply append_assoc.
Qed.

Lemma substringFrom_append p rest : substringFrom (String.length p) (p +:+ rest) = rest.
Proof.
  induction p as [|c p IH]; [by destruct rest|]. rewrite append_cons. apply IH.
Qed.

Lemma replace_prefix s p rep :
  startsWith s p = true → replace s p rep = rep +:+ substringFrom (String.length p) s.
Proof.
  intros Hs.
  assert (Hunfold : replace s p rep
    = if startsWith s p then rep +:+ substringFrom (String.length p) s
      else match s with
           | EmptyString => EmptyString
           | String c s' => String c (replace s' p rep)
           end) by (by destruct s).
  by rewrite Hunfold, Hs.
Qed.

Lemma join_cons sep s l : l ≠ [] → join sep (s :: l) = s +:+ sep +:+ join sep l.
Proof. by destruct l. Qed.

Lemma join_app sep l1 l2 :
  l1 ≠ [] → l2 ≠ [] → join sep (l1 ++ l2) = join sep l1 +:+ sep +:+ join sep l2.
Proof.
  intros Hl1 Hl2. induction l1 as [|s [|s' l1] IH]; [done| |].
  - simpl app. by rewrite join_cons.
  - rewrite <- app_comm_cons, !join_cons by done.
    rewrite IH by done. by rewrite !append_assoc.
Qed.

(** Joining the fragments of a string gives the string back. *)
Lemma join_split c s : join (String c "") (split c s) = s.
Proof.
  induction s as [|d s IH]; [done|]. simpl.
  destruct (Ascii.eqb_spec d c) as [->|Hne].
  - rewrite join_cons by apply split_not_nil.
    by rewrite append_nil_l, append_cons, append_nil_l, IH.
  - destruct (split c s) as [|w ws] eqn:Hsplit; [by apply split_not_nil in Hsplit|].
    destruct ws as [|w' ws].
    + simpl in *. by rewrite IH.
    + rewrite join_cons by done. rewrite join_cons in IH by done.
      by rewrite append_cons, IH.
Qed.

Lemma split_append_no_sep c s rest :
  includesChar c s = false →
  split c (s +:+ String c rest) = s :: split c rest.
Proof.
  induction s as [|d s IH]; intros Hs.
  - rewrite append_nil_l. simpl. by rewrite Ascii.eqb_refl.
  - simpl in Hs. apply orb_false_elim in Hs as [Hd Hs].
    rewrite append_cons. simpl. by rewrite Hd, IH.
Qed.

Lemma split_no_sep c s : includesChar c s = false → split c s = [s].
Proof.
  induction s as [|d s IH]; intros Hs; [done|]. simpl in *.
  apply orb_false_elim in Hs as [Hd Hs]. by rewrite Hd, IH.
Qed.

(** Splitting a join gives the joined strings back, when there is one at
    least and none contains the separator. *)
Lemma split_join c l :
  l ≠ [] → Forall (λ s, includesChar c s = false) l →
  split c (join (String c "") l) = l.
Proof.
  intros Hne Hl. induction Hl as [|s l Hs Hl IH]; [done|].
  destruct l as [|s' l].
  - simpl. by apply split_no_sep.
  - rewrite join_cons by done. rewrite append_cons, append_nil_l.
    rewrite split_append_no_sep by done. by rewrite IH.
Qed.

End Strings.

(** ** More on [getSelectorBase] *)

Section LongestBase.
Implicit Types (cssFragments selectors : list string) (pairs : list SelectorPair).

(** The loop accepts a run of [m] candidates and stops at the first one that
    some selector does not start with. *)
Lemma getSelectorBase_loop_run cssFragments selectors todo i selectorBase :
  ∃ m, m ≤ todo
    ∧ (∀ j, i < j ≤ i + m →
         forallb (λ selector, startsWith selector (join " " (take j cssFragments)))
           selectors = true)
    ∧ (m < todo →
         forallb (λ selector,
                    startsWith selector (join " " (take (i + m + 1) cssFragments)))
           selectors = false)
    ∧ getSelectorBase_loop cssFragments selectors todo i selectorBase
      = if decide (m = 0) then selectorBase
        else Some (join " " (take (i + m) cssFragments)).
Proof.
  revert i selectorBase. induction todo as [|todo IH]; intros i selectorBase.
  - exists 0. split; [lia|]. split; [intros j Hj; lia|]. split; [lia|done].
  - simpl.
    destruct (forallb _ selectors) eqn:Hcheck.
    + destruct (IH (i + 1) (Some (join " " (take (i + 1) cssFragments))))
        as (m & Hm & Hrun & Hstop & Hres).
      exists (S m). split; [lia|]. split; [|split].
      * intros j Hj. destruct (decide (j = i + 1)) as [->|Hne]; [done|].
        apply Hrun. lia.
      * intros Hlt. replace (i + S m + 1) with (i + 1 + m + 1) by lia.
        apply Hstop. lia.
      * rewrite Hres. rewrite (decide_False (P := S m = 0)) by lia.
        destruct (decide (m = 0)) as [->|_]; do 3 f_equal; lia.
    + exists 0. split; [lia|]. split; [intros j Hj; lia|]. split; [|done].
      intros _. by replace (i + 0 + 1) with (i + 1) by lia.
Qed.

(** A shorter candidate is a prefix of a longer one. *)
Lemma candidate_prefix cssFragments j j' :
  0 < j ≤ j' →
  startsWith (join " " (take j' cssFragments)) (join " " (take j cssFragments)) = true.
Proof.
  intros Hj. apply startsWith_iff.
  rewrite <- (take_drop j (take j' cssFragments)), take_take.
  replace (j `min` j') with j by lia.
  destruct (take j cssFragments) as [|s l1] eqn:Hl1; [by eexists|].
  destruct (drop j (take j' cssFragments)) as [|s' l2] eqn:Hl2.
  - exists "". by rewrite app_nil_r, append_nil_r.
  - eexists. by apply join_app.
Qed.

Lemma forallb_startsWith_pairs pairs base :
  forallb (λ selector, startsWith selector base) (contentSelector <$> pairs) = true
  ↔ Forall (λ selectorPair, startsWith (contentSelector selectorPair) base = true) pairs.
Proof.
  rewrite forallb_forall, Forall_forall. split.
  - intros Hall selectorPair Hin. apply Hall, list_elem_of_In.
    by apply list_elem_of_fmap_2.
  - intros Hall selector Hin.
    apply list_elem_of_In, list_elem_of_fmap in Hin as (selectorPair & -> & Hin).
    by apply Hall.
Qed.

Lemma getSelectorBase_run pair0 pairs :
  ∃ k, k ≤ length (split " " (contentSelector pair0))
    ∧ (∀ j, 0 < j ≤ k →
         Forall (λ selectorPair,
                   startsWith (contentSelector selectorPair)
                     (join " " (take j (split " " (contentSelector pair0)))) = true)
           (pair0 :: pairs))
    ∧ (∀ j, k < j ≤ length (split " " (contentSelector pair0)) →
         ¬ Forall (λ selectorPair,
                     startsWith (contentSelector selectorPair)
                       (join " " (take j (split " " (contentSelector pair0)))) = true)
             (pair0 :: pairs))
    ∧ getSelectorBase (pair0 :: pairs)
      = Ok (if decide (k = 0) then None
            else Some (join " " (take k (split " " (contentSelector pair0))))).
Proof.
  unfold getSelectorBase. rewrite fmap_cons.
  set (cssFragments := split " " (contentSelector pair0)).
  destruct (getSelectorBase_loop_run cssFragments
              (contentSelector <$> pair0 :: pairs) (length cssFragments) 0 None)
    as (k & Hk & Hrun & Hstop & Hres).
  exists k. split; [done|]. split; [|split].
  - intros j Hj. apply forallb_startsWith_pairs, Hrun. lia.
  - intros j Hj Hall.
    assert (Hnext : Forall (λ selectorPair,
      startsWith (contentSelector selectorPair)
        (join " " (take (0 + k + 1) cssFragments)) = true) (pair0 :: pairs)).
    { eapply Forall_impl; [exact Hall|]. intros selectorPair Hstart. simpl in Hstart.
      eapply startsWith_trans; [exact Hstart|]. apply candidate_prefix. lia. }
    apply forallb_startsWith_pairs in Hnext.
    rewrite Hstop in Hnext by lia. done.
  - rewrite <- fmap_cons. f_equal. rewrite Hres.
    by destruct (decide (k = 0)).
Qed.

End LongestBase.

(** X1: the result of [getSelectorBase] is the longest join of leading
    fragments of the first selector that every selector starts with: all
    shorter candidates are shared, no longer one is, and the result is none
    exactly when not even the first fragment is shared. *)
Theorem getSelectorBase_longest (pair0 : SelectorPair) (pairs : list SelectorPair) :
  ∃ k, k ≤ length (split " " (contentSelector pair0))
    ∧ (∀ j, 0 < j ≤ k →
         Forall (λ selectorPair,
                   startsWith (contentSelector selectorPair)
                     (join " " (take j (split " " (contentSelector pair0)))) = true)
           (pair0 :: pairs))
    ∧ (∀ j, k < j ≤ length (split " " (contentSelector pair0)) →
         ¬ Forall (λ selectorPair,
                     startsWith (contentSelector selectorPair)
                       (join " " (take j (split " " (contentSelector pair0)))) = true)
             (pair0 :: pairs))
    ∧ getSelectorBase (pair0 :: pairs)
      = Ok (if decide (k = 0) then None
            else Some (join " " (take k (split " " (contentSelector pair0))))).
Proof. apply getSelectorBase_run. Qed.

(** X2: when every other selector starts with the whole first selector, the
    base is the first selector itself; in particular [getSelectorBase] of a
    single pair, or of equal selectors, returns that selector. *)
Theorem getSelectorBase_whole_first (pair0 : SelectorPair) (pairs : list SelectorPair) :
  Forall (λ selectorPair,
            startsWith (contentSelector selectorPair) (contentSelector pair0) = true)
    pairs →
  getSelectorBase (pair0 :: pairs) = Ok (Some (contentSelector pair0)).
Proof.
  intros Hall.
  destruct (getSelectorBase_run pair0 pairs) as (k & Hk & _ & Hstop & ->).
  pose proof (split_not_nil " " (contentSelector pair0)) as Hne.
  assert (Hlen : 0 < length (split " " (contentSelector pair0)))
    by (destruct (split " " (contentSelector pair0)); [done|simpl; lia]).
  assert (Hwhole : join " " (take (length (split " " (contentSelector pair0)))
                               (split " " (contentSelector pair0)))
                   = contentSelector pair0)
    by (rewrite firstn_all; apply join_split).
  destruct (decide (k = length (split " " (contentSelector pair0)))) as [->|Hlt].
  - rewrite decide_False by lia. by rewrite Hwhole.
  - exfalso. apply (Hstop (length (split " " (contentSelector pair0)))); [lia|].
    rewrite Hwhole. constructor; [|done].
    apply startsWith_iff. exists "". by rewrite append_nil_r.
Qed.

Lemma getSelectorBase_whole_first_witness :
  getSelectorBase (Fixture.pairOf <$> [".list .item"; ".list .item .title"; ".list .item"])
  = Ok (Some ".list .item").
Proof.
  pose proof (getSelectorBase_whole_first (Fixture.pairOf ".list .item")
                (Fixture.pairOf <$> [".list .item .title"; ".list .item"])) as Hbase.
  apply Hbase. repeat constructor.
Defined.

(** ** More on [transformToContentRows] *)

Lemma max_list_zero (ns : list nat) : max_list ns = 0 ↔ Forall (λ n, n = 0) ns.
Proof.
  induction ns as [|n ns IH]; [by split|]. simpl. split.
  - intros Hmax. constructor; [lia|]. apply IH. lia.
  - intros Hall. apply Forall_cons in Hall as [-> Hall]. apply IH in Hall. lia.
Qed.

Lemma transformToContentRows_cell_of contentBySelector rows idx r i v column :
  transformToContentRows contentBySelector = Ok rows →
  rows !! idx = Some r → r !! i = Some v → contentBySelector !! i = Some column →
  v ∈ column ∨ (column = [] ∧ v = Some "").
Proof.
  intros Hrows Hr Hv Hcol.
  pose proof (lookup_lt_Some _ _ _ Hr) as Hidx.
  rewrite (transformToContentRows_length _ _ Hrows) in Hidx.
  destruct (decide (idx < length column)) as [Hlt|Hge].
  - pose proof (transformToContentRows_own _ _ _ _ _ Hrows Hcol Hlt) as Hcell.
    rewrite Hr in Hcell. simpl in Hcell. rewrite Hv in Hcell.
    left. by eapply list_elem_of_lookup_2.
  - pose proof (transformToContentRows_padded _ _ i column idx Hrows Hcol
                  ltac:(lia)) as Hcell.
    rewrite Hr in Hcell. simpl in Hcell. rewrite Hv in Hcell.
    injection Hcell as ->.
    destruct column as [|v0 column] using rev_ind; [by right|left].
    rewrite last_snoc. simpl. apply elem_of_app. right. by left.
Qed.

(** X3: the alignment invents nothing and keeps the columns apart: every
    cell of column [i] of a returned row is a value of input column [i], or
    the empty string when that column is empty; and no row at all is returned
    exactly when every input column is empty. *)
Theorem transformToContentRows_cells (contentBySelector : list (list value))
    (rows : list row) :
  transformToContentRows contentBySelector = Ok rows →
  (rows = [] ↔ Forall (λ column, column = []) contentBySelector)
  ∧ ∀ idx r i v column,
      rows !! idx = Some r → r !! i = Some v → contentBySelector !! i = Some column →
      v ∈ column ∨ (column = [] ∧ v = Some "").
Proof.
  intros Hrows. split.
  - pose proof (transformToContentRows_length _ _ Hrows) as Hlen.
    rewrite <- length_zero_iff_nil, Hlen, max_list_zero, Forall_fmap.
    apply Forall_iff. intros column. simpl. apply length_zero_iff_nil.
  - intros idx r i v column. by apply transformToContentRows_cell_of.
Qed.

Lemma transformToContentRows_cells_witness :
  ([[Some "a"; None; Some ""]; [Some "b"; None; Some ""]] = [] ↔
     Forall (λ column : list value, column = []) [[Some "a"; Some "b"]; [None]; []])
  ∧ (Some "" ∈ @nil value ∨ (@nil value = [] ∧ Some "" = Some ""))
  ∧ (None ∈ [@None string] ∨ ([@None string] = [] ∧ @None string = Some "")).
Proof.
  destruct (transformToContentRows_cells [[Some "a"; Some "b"]; [None]; []]
              [[Some "a"; None; Some ""]; [Some "b"; None; Some ""]] eq_refl)
    as [Hnil Hcells].
  split; [exact Hnil|]. split.
  - apply (Hcells 1 [Some "b"; None; Some ""] 2 (Some "") []); reflexivity.
  - apply (Hcells 1 [Some "b"; None; Some ""] 1 None [None]); reflexivity.
Defined.

(** ** More on [extractContent], [test] and [apply] *)

Section Outcome.
Context {Project Resource node : Type}.
Variable contentType : Resource → string.
Variable querySelectorAll : node → string → result (list node).
Variable getAttribute : node → string → value.
Implicit Types (pairs : list SelectorPair) (document baseElm : node) (e : exn).


Lemma contentBySelectorOf_outcome pairs suffixSelectors baseElm :
  (∃ columns,
     contentBySelectorOf querySelectorAll getAttribute pairs suffixSelectors baseElm
     = Ok columns)
  ∨ (∃ e, queryRaises querySelectorAll e
          ∧ contentBySelectorOf querySelectorAll getAttribute pairs suffixSelectors
              baseElm = Throw e).
Proof.
  destruct (contentBySelectorOf _ _ pairs suffixSelectors baseElm)
    as [columns|e] eqn:Hcols; [left; by eexists|right].
  exists e. split; [|done]. unfold contentBySelectorOf in Hcols.
  apply mapM_Throw in Hcols as (entry & _ & Hentry). unfold scopedColumn in Hentry.
  destruct (querySelectorAll baseElm entry.1) as [elms|e'] eqn:Hquery; [done|].
  injection Hentry as ->. by eexists _, _.
Qed.

(** What one base element adds does not depend on the rows gathered so
    far, and the reducer raises only what a query raises. *)
Lemma scrapeBaseElm_acc pairs suffixSelectors baseElm :
  (∃ newRows,
     ∀ rows, scrapeBaseElm querySelectorAll getAttribute pairs suffixSelectors
               rows baseElm = Ok (rows ++ newRows))
  ∨ (∃ e, queryRaises querySelectorAll e
          ∧ ∀ rows, scrapeBaseElm querySelectorAll getAttribute pairs suffixSelectors
                      rows baseElm = Throw e).
Proof.
  unfold scrapeBaseElm.
  destruct (contentBySelectorOf_outcome pairs suffixSelectors baseElm)
    as [[columns ->]|(e & He & ->)]; [|right; by exists e].
  left. simpl. destruct (List.find _ columns) as [found|] eqn:Hfind.
  - apply find_some in Hfind as [Hfound _].
    assert (Hne : columns ≠ []) by (intros Hnil; by rewrite Hnil in Hfound).
    rewrite (transformToContentRows_Ok columns Hne). by eexists.
  - exists []. intros rows. by rewrite app_nil_r.
Qed.

Lemma reduce_scrape_acc pairs suffixSelectors (elms : list node) :
  (∃ out, ∀ acc,
     reduce (scrapeBaseElm querySelectorAll getAttribute pairs suffixSelectors) elms acc
     = Ok (acc ++ out))
  ∨ (∃ e, queryRaises querySelectorAll e
          ∧ ∀ acc,
              reduce (scrapeBaseElm querySelectorAll getAttribute pairs suffixSelectors)
                elms acc = Throw e).
Proof.
  induction elms as [|baseElm elms IH].
  - left. exists []. intros acc. by rewrite app_nil_r.
  - cbn [reduce].
    destruct (scrapeBaseElm_acc pairs suffixSelectors baseElm)
      as [[newRows Hnew]|(e & He & Hraise)].
    + destruct IH as [[out IH]|(e & He & IH)].
      * left. exists (newRows ++ out). intros acc. rewrite Hnew. simpl.
        by rewrite IH, app_assoc.
      * right. exists e. split; [done|]. intros acc. rewrite Hnew. simpl. apply IH.
    + right. exists e. split; [done|]. intros acc. by rewrite Hraise.
Qed.





End Outcome.


Example apply_menu_raises :
  test (Project := unit) (λ contentType : string, contentType)
    (Fixture.opts [".item"; ".item .title"]) () (Some "text/html") = Ok true
  ∧ Fixture.pass Fixture.menu [".item"; ".item .title"] ∅ = Throw SyntaxError.
Proof. split; reflexivity. Qed.

Section Rows.
Context {node : Type}.
Variable querySelectorAll : node → string → result (list node).
Variable getAttribute : node → string → value.
Implicit Types (pairs : list SelectorPair) (document baseElm : node).

Lemma getContentKeys_length pairs : length (getContentKeys pairs) = length pairs.
Proof. unfold getContentKeys. by rewrite length_fmap. Qed.

(** X6: in both modes every returned row has one cell per selector pair, as
    many as [getContentKeys] returns keys. *)
Theorem extractContent_row_width (opts : Opts) pairs document (rows : list row) :
  selectorPairs opts = Some pairs →
  extractContent querySelectorAll getAttribute (Some opts) document = Ok rows →
  Forall (λ r, length r = length pairs ∧ length r = length (getContentKeys pairs)) rows.
Proof.
  intros Hpairs Hrows. rewrite getContentKeys_length.
  apply (Forall_impl (λ r, length r = length pairs)); [|done].
  destruct (inferSelectorBase querySelectorAll pairs document)
    as [[base|]|e] eqn:Hbase.
  - rewrite (extractContent_scoped _ _ _ _ _ _ Hpairs Hbase) in Hrows.
    unfold extractScoped in Hrows.
    destruct (querySelectorAll document base) as [baseElms|e]; [|done].
    simpl in Hrows.
    eapply reduce_scrape_Forall; [|by apply Forall_nil|exact Hrows].
    intros baseElm columns newRows Hcols Hnew. apply Forall_forall. intros r Hr.
    rewrite (transformToContentRows_width _ _ _ Hnew Hr).
    by eapply contentBySelectorOf_length.
  - rewrite (extractContent_global _ _ _ _ _ Hpairs Hbase) in Hrows.
    unfold extractGlobal in Hrows.
    destruct (globalColumns _ _ pairs document) as [columns|e] eqn:Hcols; [|done].
    simpl in Hrows. apply Forall_forall. intros r Hr.
    rewrite (transformToContentRows_width _ _ _ Hrows Hr).
    by eapply globalColumns_length.
  - unfold extractContent in Hrows. simpl in Hrows.
    by rewrite Hpairs, Hbase in Hrows.
Qed.

(** X7: when no base is kept, every selector was queried on the whole
    document and the number of rows is the greatest number of elements one
    of these queries matched: no matched element is skipped, and there is no
    row when nothing matches. *)
Theorem extractContent_global_row_count (opts : Opts) pairs document (rows : list row) :
  selectorPairs opts = Some pairs →
  inferSelectorBase querySelectorAll pairs document = Ok None →
  extractContent querySelectorAll getAttribute (Some opts) document = Ok rows →
  ∃ matched : list (list node),
    Forall2 (λ selectorPair elms,
               querySelectorAll document (contentSelector selectorPair) = Ok elms)
      pairs matched
    ∧ length rows = max_list (length <$> matched).
Proof.
  intros Hpairs Hbase Hrows.
  rewrite (extractContent_global _ _ _ _ _ Hpairs Hbase) in Hrows.
  unfold extractGlobal in Hrows.
  destruct (globalColumns _ _ pairs document) as [columns|e] eqn:Hcols; [|done].
  simpl in Hrows. rewrite (transformToContentRows_length _ _ Hrows).
  unfold globalColumns in Hcols. apply mapM_Ok in Hcols.
  clear Hrows Hbase Hpairs. induction Hcols as [|selectorPair column pairs columns Hcol _ IH].
  - by exists [].
  - destruct IH as (matched & Hmatched & Hlen). unfold globalColumn in Hcol.
    destruct (querySelectorAll document (contentSelector selectorPair))
      as [elms|e] eqn:Hquery; [|done].
    simpl in Hcol. injection Hcol as <-.
    exists (elms :: matched). split; [by constructor|].
    csimpl. by rewrite length_fmap, Hlen.
Qed.

(** X8: the rows of a scoped pass are the rows of its base elements in
    document order: when the matched base elements split in two lists, the
    pass is the reducer run over the first list and then over the second,
    each from no rows, and its rows are the rows of the first followed by
    the rows of the second. *)
Theorem extractScoped_concat pairs base document (elms1 elms2 : list node) :
  querySelectorAll document base = Ok (elms1 ++ elms2) →
  extractScoped querySelectorAll getAttribute pairs base document
  = (rows1 ← reduce (scrapeBaseElm querySelectorAll getAttribute pairs
                       (suffixSelectorsOf pairs base)) elms1 [];
     rows2 ← reduce (scrapeBaseElm querySelectorAll getAttribute pairs
                       (suffixSelectorsOf pairs base)) elms2 [];
     Ok (rows1 ++ rows2)).
Proof.
  intros Hmatch. unfold extractScoped. rewrite Hmatch. simpl. rewrite reduce_app.
  destruct (reduce_scrape_acc querySelectorAll getAttribute pairs
              (suffixSelectorsOf pairs base) elms1) as [[rows1 Hrows1]|(e & _ & Hraise)].
  - rewrite !Hrows1. simpl.
    destruct (reduce_scrape_acc querySelectorAll getAttribute pairs
                (suffixSelectorsOf pairs base) elms2)
      as [[rows2 Hrows2]|(e & _ & Hraise)].
    + by rewrite !Hrows2.
    + by rewrite !Hraise.
  - by rewrite !Hraise.
Qed.

(** X9: in scoped mode every row of a pass that returns has a non-empty
    value, and no cell is absent: a cell is a non-empty scraped value or the
    empty string of the padding. *)
Theorem extractContent_scoped_rows (opts : Opts) pairs base document (rows : list row) :
  selectorPairs opts = Some pairs →
  inferSelectorBase querySelectorAll pairs document = Ok (Some base) →
  extractContent querySelectorAll getAttribute (Some opts) document = Ok rows →
  Forall (λ r : row, ∃ v, v ∈ r ∧ truthy v = true) rows
  ∧ Forall (λ r : row, Forall (λ v, truthy v = true ∨ v = Some "") r) rows.
Proof.
  intros Hpairs Hbase Hrows.
  rewrite (extractContent_scoped _ _ _ _ _ _ Hpairs Hbase) in Hrows.
  split; [by eapply extractScoped_valued|].
  unfold extractScoped in Hrows.
  destruct (querySelectorAll document base) as [baseElms|e]; [|done].
  simpl in Hrows.
  eapply reduce_scrape_Forall; [|by apply Forall_nil|exact Hrows].
  intros baseElm columns newRows Hcols Hnew. apply Forall_forall. intros r Hr.
  apply list_elem_of_lookup in Hr as [idx Hr].
  apply Forall_forall. intros v Hv. apply list_elem_of_lookup in Hv as [i Hv].
  pose proof (transformToContentRows_width _ _ _ Hnew
                (list_elem_of_lookup_2 _ _ _ Hr)) as Hwidth.
  destruct (lookup_lt_is_Some_2 columns i) as [column Hcol].
  { rewrite <- Hwidth. by eapply lookup_lt_Some. }
  destruct (transformToContentRows_cell_of _ _ _ _ _ _ _ Hnew Hr Hv Hcol)
    as [Hin|[_ ->]]; [left|by right].
  eapply contentBySelectorOf_truthy; [exact Hcols| |exact Hin].
  by eapply list_elem_of_lookup_2.
Qed.

(** X10: the suffix selector queried within a base element is the selector
    without its leading base, trimmed: the base kept by [extractContent] is
    at the front of every selector, and it is that occurrence that [replace]
    removes. *)
Theorem suffixSelectorsOf_strips_base pairs base document :
  inferSelectorBase querySelectorAll pairs document = Ok (Some base) →
  Forall (λ selectorPair,
            contentSelector selectorPair
            = base +:+ substringFrom (String.length base) (contentSelector selectorPair))
    pairs
  ∧ suffixSelectorsOf pairs base
    = (λ selectorPair,
         trim (substringFrom (String.length base) (contentSelector selectorPair)))
        <$> pairs.
Proof.
  intros Hbase. apply inferSelectorBase_prefix in Hbase. split.
  - eapply Forall_impl; [exact Hbase|]. intros selectorPair Hstart.
    by apply startsWith_substring.
  - unfold suffixSelectorsOf. apply Forall_fmap_ext_1.
    eapply Forall_impl; [exact Hbase|]. intros selectorPair Hstart. simpl.
    by rewrite replace_prefix, append_nil_l.
Qed.

End Rows.

Lemma extractContent_row_width_witness :
  Forall (λ r : row,
            length r = 2
            ∧ length r = length (getContentKeys
                                   (Fixture.pairOf <$> [".item .title"; ".item .price"])))
    [[Some "T1"; Some "P1"]; [Some "T2"; Some ""]].
Proof.
  pose proof (extractContent_row_width Fixture.querySelectorAll Fixture.getAttribute
                {| domRead := Some true;
                   selectorPairs :=
                     Some (Fixture.pairOf <$> [".item .title"; ".item .price"]) |}
                (Fixture.pairOf <$> [".item .title"; ".item .price"])
                (Fixture.items, 0)
                [[Some "T1"; Some "P1"]; [Some "T2"; Some ""]]) as Hwidth.
  apply Hwidth; reflexivity.
Defined.

Lemma extractContent_global_row_count_witness :
  ∃ matched : list (list Fixture.Node),
    Forall2 (λ selectorPair elms,
               Fixture.querySelectorAll (Fixture.page, 0) (contentSelector selectorPair)
               = Ok elms)
      (Fixture.pairOf <$> ["h1"; "p"]) matched
    ∧ length [[Some "Title"; Some ""]; [Some "Title"; Some "x"]]
      = max_list (length <$> matched).
Proof.
  pose proof (extractContent_global_row_count
                Fixture.querySelectorAll Fixture.getAttribute
                {| domRead := Some true;
                   selectorPairs := Some (Fixture.pairOf <$> ["h1"; "p"]) |}
                (Fixture.pairOf <$> ["h1"; "p"]) (Fixture.page, 0)
                [[Some "Title"; Some ""]; [Some "Title"; Some "x"]]) as Hcount.
  apply Hcount; reflexivity.
Defined.

Lemma extractScoped_concat_witness :
  extractScoped Fixture.querySelectorAll Fixture.getAttribute
    (Fixture.pairOf <$> [".item .title"; ".item .price"]) ".item" (Fixture.items, 0)
  = (rows1 ← reduce (scrapeBaseElm Fixture.querySelectorAll Fixture.getAttribute
                       (Fixture.pairOf <$> [".item .title"; ".item .price"])
                       (suffixSelectorsOf
                          (Fixture.pairOf <$> [".item .title"; ".item .price"]) ".item"))
               [(Fixture.items, 1)] [];
     rows2 ← reduce (scrapeBaseElm Fixture.querySelectorAll Fixture.getAttribute
                       (Fixture.pairOf <$> [".item .title"; ".item .price"])
                       (suffixSelectorsOf
                          (Fixture.pairOf <$> [".item .title"; ".item .price"]) ".item"))
               [(Fixture.items, 2); (Fixture.items, 3)] [];
     Ok (rows1 ++ rows2)).
Proof.
  apply (extractScoped_concat Fixture.querySelectorAll Fixture.getAttribute
           (Fixture.pairOf <$> [".item .title"; ".item .price"]) ".item"
           (Fixture.items, 0) [(Fixture.items, 1)]
           [(Fixture.items, 2); (Fixture.items, 3)]).
  reflexivity.
Defined.

Lemma extractContent_scoped_rows_witness :
  Forall (λ r : row, ∃ v, v ∈ r ∧ truthy v = true)
    [[Some "T1"; Some "P1"]; [Some "T2"; Some ""]]
  ∧ Forall (λ r : row, Forall (λ v, truthy v = true ∨ v = Some "") r)
      [[Some "T1"; Some "P1"]; [Some "T2"; Some ""]].
Proof.
  pose proof (extractContent_scoped_rows Fixture.querySelectorAll Fixture.getAttribute
                {| domRead := Some true;
                   selectorPairs :=
                     Some (Fixture.pairOf <$> [".item .title"; ".item .price"]) |}
                (Fixture.pairOf <$> [".item .title"; ".item .price"]) ".item"
                (Fixture.items, 0)
                [[Some "T1"; Some "P1"]; [Some "T2"; Some ""]]) as Hrows.
  apply Hrows; reflexivity.
Defined.

Lemma suffixSelectorsOf_strips_base_witness :
  Forall (λ selectorPair,
            contentSelector selectorPair
            = ".item" +:+ substringFrom 5 (contentSelector selectorPair))
    (Fixture.pairOf <$> [".item .title"; ".items .price"])
  ∧ suffixSelectorsOf (Fixture.pairOf <$> [".item .title"; ".items .price"]) ".item"
    = [".title"; "s .price"].
Proof.
  pose proof (suffixSelectorsOf_strips_base Fixture.querySelectorAll
                (Fixture.pairOf <$> [".item .title"; ".items .price"]) ".item"
                (Fixture.shelves, 0)) as Hsuffix.
  apply Hsuffix. reflexivity.
Defined.

(** ** More on [diffAndMerge] and the passes *)

Section Keys.
Implicit Types (content : gset string) (rows kept : list row) (r : row).

Lemma diffAndMerge_kept_keys content rows :
  (list_to_set (joinRow <$> (diffAndMerge content rows).1) : gset string)
  = list_to_set (joinRow <$> rows) ∖ content.
Proof.
  apply set_eq. intros key.
  rewrite elem_of_difference, !elem_of_list_to_set, !list_elem_of_fmap. split.
  - intros (r & -> & Hr). split.
    + exists r. split; [done|].
      eapply elem_of_sublist; [exact Hr|apply diffAndMerge_sublist].
    + by eapply diffAndMerge_kept_new.
  - intros [(r & -> & Hr) Hnew].
    pose proof (diffAndMerge_records content rows r Hr) as Hseen.
    rewrite diffAndMerge_content in Hseen.
    apply elem_of_union in Hseen as [Hseen|Hseen]; [done|].
    by apply elem_of_list_to_set, list_elem_of_fmap in Hseen.
Qed.

Lemma diffAndMerge_all_keys content rows :
  (diffAndMerge content rows).2 = content ∪ list_to_set (joinRow <$> rows).
Proof.
  rewrite diffAndMerge_content, diffAndMerge_kept_keys.
  apply set_eq. intros key.
  rewrite !elem_of_union, elem_of_difference.
  destruct (decide (key ∈ content)); naive_solver.
Qed.

Lemma joinRow_values r1 r2 :
  r1 ≠ [] → r2 ≠ [] →
  Forall (λ v, includesChar "," (default "" v) = false) r1 →
  Forall (λ v, includesChar "," (default "" v) = false) r2 →
  joinRow r1 = joinRow r2 →
  default "" <$> r1 = default "" <$> r2.
Proof.
  intros Hne1 Hne2 Hr1 Hr2 Hkey. unfold joinRow in Hkey.
  rewrite <- (split_join "," (default "" <$> r1)), <- (split_join "," (default "" <$> r2)).
  - by rewrite Hkey.
  - intros Hnil. by apply fmap_nil_inv in Hnil.
  - by apply Forall_fmap.
  - intros Hnil. by apply fmap_nil_inv in Hnil.
  - by apply Forall_fmap.
Qed.

End Keys.

(** X11: a pass loses no new key and returns no known one: the keys of the
    returned rows are exactly the keys of the computed rows that were not in
    the set, and the set after the pass is the set before with the keys of
    all computed rows. *)
Theorem diffAndMerge_new_keys (content : gset string) (currentContent : list row) :
  (list_to_set (joinRow <$> (diffAndMerge content currentContent).1) : gset string)
  = list_to_set (joinRow <$> currentContent) ∖ content
  ∧ (diffAndMerge content currentContent).2
    = content ∪ list_to_set (joinRow <$> currentContent).
Proof. split; [apply diffAndMerge_kept_keys|apply diffAndMerge_all_keys]. Qed.

(** X12: two passes in a row return, one after the other, what a single pass
    over the rows of the first followed by the rows of the second returns,
    and leave the same set. *)
Theorem diffAndMerge_two_passes (content : gset string) (rows1 rows2 : list row) :
  diffAndMerge content (rows1 ++ rows2)
  = ((diffAndMerge content rows1).1
       ++ (diffAndMerge (diffAndMerge content rows1).2 rows2).1,
     (diffAndMerge (diffAndMerge content rows1).2 rows2).2).
Proof. apply diffAndMerge_app. Qed.

(** X13: the comma-join key tells rows apart when no value holds a comma:
    two non-empty rows of such values with the same key have the same
    values, an absent value counting as the empty string. *)
Theorem joinRow_injective (r1 r2 : row) :
  r1 ≠ [] → r2 ≠ [] →
  Forall (λ v, includesChar "," (default "" v) = false) r1 →
  Forall (λ v, includesChar "," (default "" v) = false) r2 →
  joinRow r1 = joinRow r2 →
  default "" <$> r1 = default "" <$> r2.
Proof. apply joinRow_values. Qed.

Lemma joinRow_injective_witness :
  default "" <$> [Some "a b"; None; Some "c"]
  = default "" <$> [Some "a b"; Some ""; Some "c"].
Proof.
  apply (joinRow_injective [Some "a b"; None; Some "c"] [Some "a b"; Some ""; Some "c"]);
    try discriminate; try reflexivity; repeat constructor.
Defined.

Section NoRepeat.
Context {node : Type}.
Variable querySelectorAll : node → string → result (list node).
Variable getAttribute : node → string → value.

Lemma apply_inv opts content document kept content' :
  apply querySelectorAll getAttribute opts content document = Ok (kept, content') →
  ∃ rows,
    extractContent querySelectorAll getAttribute opts document = Ok rows
    ∧ diffAndMerge content rows = (kept, content').
Proof.
  unfold apply.
  destruct (extractContent querySelectorAll getAttribute opts document) as [rows|e];
    [|done].
  simpl. intros Heq. injection Heq as Heq. by exists rows.
Qed.

(** X14: a row returned by an earlier pass is not returned again by a later
    pass of the same instance, whatever the two documents: the keys of the
    rows returned by two passes in a row are pairwise different, those of
    the second pass are new to the set the first pass started from, and the
    set only grows. *)
Theorem apply_never_repeats opts (content content1 content2 : gset string)
    (document1 document2 : node) (kept1 kept2 : list row) :
  apply querySelectorAll getAttribute opts content document1 = Ok (kept1, content1) →
  apply querySelectorAll getAttribute opts content1 document2 = Ok (kept2, content2) →
  NoDup (joinRow <$> (kept1 ++ kept2))
  ∧ (∀ r, r ∈ kept2 → (joinRow r ∉ content) ∧ (joinRow r ∉ joinRow <$> kept1))
  ∧ content ⊆ content1 ∧ content1 ⊆ content2.
Proof.
  intros Hfirst Hsecond.
  apply apply_inv in Hfirst as (rows1 & _ & Hfirst).
  apply apply_inv in Hsecond as (rows2 & _ & Hsecond).
  pose proof (diffAndMerge_app content rows1 rows2) as Hboth.
  rewrite Hfirst in Hboth. simpl in Hboth. rewrite Hsecond in Hboth. simpl in Hboth.
  pose proof (diffAndMerge_NoDup content (rows1 ++ rows2)) as Hnd.
  rewrite Hboth in Hnd. simpl in Hnd.
  pose proof (diffAndMerge_content content rows1) as Hset1.
  rewrite Hfirst in Hset1. simpl in Hset1.
  pose proof (diffAndMerge_mono content1 rows2) as Hmono.
  rewrite Hsecond in Hmono. simpl in Hmono.
  split; [done|]. split; [|split; [set_solver|done]].
  intros r Hr.
  pose proof (diffAndMerge_kept_new content1 rows2 r) as Hnew.
  rewrite Hsecond in Hnew. specialize (Hnew Hr).
  rewrite Hset1 in Hnew. split; [set_solver|].
  intros Hin. apply Hnew, elem_of_union_r. by apply elem_of_list_to_set.
Qed.

End NoRepeat.

Lemma apply_never_repeats_witness :
  NoDup (joinRow <$> ([[Some "a,b"; Some "c"]] ++ [[Some "d"; Some "e"]]))
  ∧ (∀ r, r ∈ [[Some "d"; Some "e"]] →
       (joinRow r ∉ (∅ : gset string))
       ∧ (joinRow r ∉ joinRow <$> [[Some "a,b"; Some "c"]]))
  ∧ (∅ : gset string) ⊆ {["a,b,c"]}
  ∧ ({["a,b,c"]} : gset string) ⊆ {["d,e"]} ∪ {["a,b,c"]}.
Proof.
  apply (apply_never_repeats Fixture.querySelectorAll Fixture.getAttribute
           (Fixture.opts ["h1"; "p"]) ∅ {["a,b,c"]} ({["d,e"]} ∪ {["a,b,c"]})
           (Fixture.listing1, 0) (Fixture.listing3, 0));
    vm_compute; reflexivity.
Defined.

(** ** More on [test] and [getContentKeys] *)

Section Applicability.
Local Open Scope char_scope.

Ltac letter_cases d :=
  destruct d as [[] [] [] [] [] [] [] []]; vm_compute;
  (split;
   [ let H := fresh in intros H; first [discriminate H | by left | by right]
   | let H := fresh in intros [H|H]; first [reflexivity | discriminate H] ]).

Lemma toLower_h d : Ascii.eqb (toLower "h") (toLower d) = true ↔ d = "h" ∨ d = "H".
Proof. letter_cases d. Qed.

Lemma toLower_t d : Ascii.eqb (toLower "t") (toLower d) = true ↔ d = "t" ∨ d = "T".
Proof. letter_cases d. Qed.

Lemma toLower_m d : Ascii.eqb (toLower "m") (toLower d) = true ↔ d = "m" ∨ d = "M".
Proof. letter_cases d. Qed.

Lemma toLower_l d : Ascii.eqb (toLower "l") (toLower d) = true ↔ d = "l" ∨ d = "L".
Proof. letter_cases d. Qed.

Lemma startsWithIgnoreCase_html s :
  startsWithIgnoreCase s "html" = true
  ↔ ∃ c1 c2 c3 c4 post,
      s = String c1 (String c2 (String c3 (String c4 post)))
      ∧ (c1 = "h" ∨ c1 = "H") ∧ (c2 = "t" ∨ c2 = "T")
      ∧ (c3 = "m" ∨ c3 = "M") ∧ (c4 = "l" ∨ c4 = "L").
Proof.
  split.
  - destruct s as [|c1 [|c2 [|c3 [|c4 post]]]]; cbn [startsWithIgnoreCase];
      intros Hs; try discriminate Hs;
      repeat (destruct (Ascii.eqb _ _) eqn:? in Hs; try discriminate Hs).
    exists c1, c2, c3, c4, post. split; [done|].
    split; [by apply toLower_h|]. split; [by apply toLower_t|].
    split; [by apply toLower_m|by apply toLower_l].
  - intros (c1 & c2 & c3 & c4 & post & -> & H1 & H2 & H3 & H4).
    cbn [startsWithIgnoreCase].
    apply toLower_h in H1. apply toLower_t in H2.
    apply toLower_m in H3. apply toLower_l in H4.
    rewrite H1, H2, H3, H4. by destruct post.
Qed.

Lemma testHtmlIgnoreCase_iff s :
  testHtmlIgnoreCase s = true
  ↔ ∃ pre rest, s = pre +:+ rest ∧ startsWithIgnoreCase rest "html" = true.
Proof.
  induction s as [|c s IH].
  - split; [done|]. intros (pre & rest & Heq & Hrest).
    destruct pre; [|done]. rewrite append_nil_l in Heq. by subst rest.
  - cbn [testHtmlIgnoreCase]. rewrite orb_true_iff, IH. split.
    + intros [Hhere|(pre & rest & -> & Hrest)].
      * by exists EmptyString, (String c s).
      * by exists (String c pre), rest.
    + intros (pre & rest & Heq & Hrest). destruct pre as [|c' pre].
      * rewrite append_nil_l in Heq. subst rest. by left.
      * rewrite append_cons in Heq. injection Heq as -> ->.
        right. by exists pre, rest.
Qed.

End Applicability.

(** X15: [test] accepts exactly when the resource is present, the options
    hold one selector pair at least, and the content type of the resource
    contains the letters h, t, m, l in a row, each in either case. *)
Theorem test_accepts_iff {Project Resource : Type} (contentType : Resource → string)
    (opts : option Opts) (project : Project) (resource : option Resource) :
  test contentType opts project resource = Ok true
  ↔ ∃ res o pair0 pairs pre c1 c2 c3 c4 post,
      resource = Some res ∧ opts = Some o
      ∧ selectorPairs o = Some (pair0 :: pairs)
      ∧ contentType res = pre +:+ String c1 (String c2 (String c3 (String c4 post)))
      ∧ (c1 = "h" ∨ c1 = "H")%char ∧ (c2 = "t" ∨ c2 = "T")%char
      ∧ (c3 = "m" ∨ c3 = "M")%char ∧ (c4 = "l" ∨ c4 = "L")%char.
Proof.
  unfold test. split.
  - intros Htest.
    destruct resource as [res|]; [|done]. destruct opts as [o|]; [|done].
    destruct (selectorPairs o) as [[|pair0 pairs]|] eqn:Hpairs; try done.
    simpl in Htest. injection Htest as Htest.
    apply testHtmlIgnoreCase_iff in Htest as (pre & rest & Heq & Hrest).
    apply startsWithIgnoreCase_html in Hrest
      as (c1 & c2 & c3 & c4 & post & -> & Hletters).
    by exists res, o, pair0, pairs, pre, c1, c2, c3, c4, post.
  - intros (res & o & pair0 & pairs & pre & c1 & c2 & c3 & c4 & post
            & -> & -> & Hpairs & Heq & Hletters).
    rewrite Hpairs. simpl. f_equal. apply testHtmlIgnoreCase_iff.
    exists pre, (String c1 (String c2 (String c3 (String c4 post)))).
    split; [done|]. apply startsWithIgnoreCase_html.
    by exists c1, c2, c3, c4, post.
Qed.

(** X16: [getContentKeys] falls back on the selector when the label is
    absent or empty, so no key is empty when no selector is. *)
Theorem getContentKeys_not_empty (pairs : list SelectorPair) :
  Forall (λ selectorPair, contentSelector selectorPair ≠ "") pairs →
  Forall (λ key, key ≠ "") (getContentKeys pairs).
Proof.
  intros Hpairs. unfold getContentKeys. apply Forall_fmap.
  eapply Forall_impl; [exact Hpairs|]. intros selectorPair Hselector. simpl.
  destruct (label selectorPair) as [l|]; simpl; [|done].
  destruct (String.eqb_spec l ""); simpl; done.
Qed.

Lemma getContentKeys_not_empty_witness :
  Forall (λ key, key ≠ "")
    (getContentKeys
       [ {| label := Some ""; contentSelector := "h1"; contentProperty := "innerText" |};
         {| label := Some "price"; contentSelector := ".price";
            contentProperty := "innerText" |};
         {| label := None; contentSelector := "a"; contentProperty := "href" |} ]).
Proof.
  apply getContentKeys_not_empty. repeat constructor; discriminate.
Defined.

(** ** Scraped values are trimmed *)

Section Chars.
Implicit Types (l r char : list ascii) (c : ascii).

Lemma sequenceLength_pos c : 1 ≤ sequenceLength c.
Proof. unfold sequenceLength. repeat case_match; lia. Qed.

Lemma charLength_cons c l : 1 ≤ charLength (c :: l) ≤ length (c :: l).
Proof.
  unfold charLength. pose proof (sequenceLength_pos c). simpl length. lia.
Qed.

Lemma charsFuel_enough fuel1 fuel2 l :
  length l ≤ fuel1 → length l ≤ fuel2 → charsFuel fuel1 l = charsFuel fuel2 l.
Proof.
  revert fuel2 l. induction fuel1 as [|fuel1 IH]; intros fuel2 l H1 H2.
  - destruct l; [|simpl in H1; lia]. by destruct fuel2.
  - destruct l as [|c l]; [by destruct fuel2|].
    destruct fuel2 as [|fuel2]; [simpl in H2; lia|].
    cbn [charsFuel]. f_equal.
    pose proof (charLength_cons c l) as Hn.
    apply IH; rewrite length_drop; simpl in *; lia.
Qed.

Lemma chars_cons c l :
  chars (c :: l)
  = take (charLength (c :: l)) (c :: l) :: chars (drop (charLength (c :: l)) (c :: l)).
Proof.
  unfold chars at 1. cbn [length charsFuel]. f_equal.
  pose proof (charLength_cons c l) as Hn.
  apply charsFuel_enough; rewrite length_drop; simpl in *; lia.
Qed.

Lemma chars_nil : chars [] = [].
Proof. done. Qed.

Lemma chars_ind (P : list ascii → Prop) :
  P [] →
  (∀ c l, P (drop (charLength (c :: l)) (c :: l)) → P (c :: l)) →
  ∀ l, P l.
Proof.
  intros Hnil Hcons l. remember (length l) as n eqn:Hn. revert l Hn.
  induction n as [n IH] using lt_wf_ind. intros l ->.
  destruct l as [|c l]; [done|]. apply Hcons.
  eapply IH; [|reflexivity].
  pose proof (charLength_cons c l). rewrite length_drop. simpl in *. lia.
Qed.

(** The characters of a string, put together, are the string. *)
Lemma concat_chars l : concat (chars l) = l.
Proof.
  induction l as [|c l IH] using chars_ind; [done|].
  rewrite chars_cons. cbn [concat]. rewrite IH. apply take_drop.
Qed.

(** A character that has all the bytes its first byte announces is read the
    same whatever follows. *)
Lemma chars_app_complete c char r :
  length (c :: char) = sequenceLength c →
  chars ((c :: char) ++ r) = (c :: char) :: chars r.
Proof.
  intros Hlen. rewrite <- app_comm_cons, chars_cons.
  assert (Hn : charLength (c :: char ++ r) = length (c :: char)).
  { unfold charLength. rewrite <- Hlen. simpl length. rewrite length_app. lia. }
  rewrite Hn, app_comm_cons. by rewrite take_app_length, drop_app_length.
Qed.

Lemma chars_take k l : chars (concat (take k (chars l))) = take k (chars l).
Proof.
  revert k. induction l as [|c l IH] using chars_ind; intros k; [by destruct k|].
  destruct k as [|k]; [done|]. rewrite chars_cons. cbn [take concat].
  pose proof (charLength_cons c l) as Hn.
  assert (Hseq : charLength (c :: l) = sequenceLength c
                 ∨ charLength (c :: l) = length (c :: l))
    by (unfold charLength; lia).
  remember (charLength (c :: l)) as n eqn:Heqn.
  destruct n as [|n]; [lia|]. cbn [take].
  destruct Hseq as [Hfull|Hall].
  - rewrite chars_app_complete, IH; [done|].
    simpl. rewrite length_take. simpl in Hn. lia.
  - assert (Hdrop : drop (S n) (c :: l) = []) by (apply drop_ge; lia).
    assert (Htake : take n l = l) by (apply take_ge; simpl in Hall; lia).
    rewrite Hdrop, chars_nil, take_nil. cbn [concat]. rewrite app_nil_r, Htake.
    rewrite chars_cons, <- Heqn, Hdrop, chars_nil. cbn [take]. by rewrite Htake.
Qed.

Lemma chars_drop j l : chars (concat (drop j (chars l))) = drop j (chars l).
Proof.
  revert j. induction l as [|c l IH] using chars_ind; intros j; [by destruct j|].
  destruct j as [|j]; [by rewrite drop_0, concat_chars|].
  rewrite chars_cons. cbn [drop]. apply IH.
Qed.

End Chars.

Section DropWhile.
Context {A : Type} (p : A → bool).
Implicit Types (l : list A).

Lemma dropWhile_drop l : ∃ j, dropWhile p l = drop j l.
Proof.
  induction l as [|x l [j IH]]; [by exists 0|]. simpl.
  destruct (p x); [by exists (S j)|by exists 0].
Qed.

Lemma dropWhileEnd_take l : ∃ k, dropWhileEnd p l = take k l.
Proof.
  induction l as [|x l [k IH]]; [by exists 0|]. simpl. rewrite IH.
  destruct (take k l) eqn:Hk.
  - destruct (p x); [by exists 0|]. exists 1. by destruct l.
  - exists (S k). simpl. by rewrite Hk.
Qed.

Lemma dropWhile_head l x l' : dropWhile p l = x :: l' → p x = false.
Proof.
  induction l as [|y l IH]; [done|]. simpl. destruct (p y) eqn:Hy; [done|].
  intros Heq. by injection Heq as <- _.
Qed.

Lemma dropWhile_id x l : p x = false → dropWhile p (x :: l) = x :: l.
Proof. intros Hx. simpl. by rewrite Hx. Qed.

Lemma dropWhileEnd_idem l : dropWhileEnd p (dropWhileEnd p l) = dropWhileEnd p l.
Proof.
  induction l as [|x l IH]; [done|]. simpl.
  destruct (dropWhileEnd p l) as [|y kept] eqn:Hl.
  - destruct (p x) eqn:Hx; [done|]. simpl. by rewrite Hx.
  - cbn [dropWhileEnd]. cbn [dropWhileEnd] in IH. by rewrite IH.
Qed.

Lemma dropWhileEnd_cons x l :
  dropWhileEnd p (x :: l) = [] ∨ ∃ kept, dropWhileEnd p (x :: l) = x :: kept.
Proof.
  simpl. destruct (dropWhileEnd p l); [|right; by eexists].
  destruct (p x); [by left|right; by eexists].
Qed.

(** Dropping at both ends a second time drops nothing. *)
Lemma dropWhile_both_idem l :
  dropWhileEnd p (dropWhile p (dropWhileEnd p (dropWhile p l)))
  = dropWhileEnd p (dropWhile p l).
Proof.
  destruct (dropWhile p l) as [|x kept] eqn:Hl; [done|].
  pose proof (dropWhile_head _ _ _ Hl) as Hx.
  destruct (dropWhileEnd_cons x kept) as [->|[kept' Hkept]]; [done|].
  rewrite Hkept, dropWhile_id by done. rewrite <- Hkept. apply dropWhileEnd_idem.
Qed.

End DropWhile.

(** Trimming a trimmed string changes nothing. *)
Lemma trim_idem s : trim (trim s) = trim s.
Proof.
  unfold trim. rewrite list_ascii_of_string_of_list_ascii.
  set (p := λ char, isWhiteSpace (codePoint char)).
  set (l := list_ascii_of_string s).
  destruct (dropWhile_drop p (chars l)) as [j Hj].
  destruct (dropWhileEnd_take p (dropWhile p (chars l))) as [k Hk].
  assert (Hchars : chars (concat (dropWhileEnd p (dropWhile p (chars l))))
                   = dropWhileEnd p (dropWhile p (chars l))).
  { rewrite Hk, Hj, <- (chars_drop j l). apply chars_take. }
  by rewrite Hchars, dropWhile_both_idem.
Qed.

Section Trimmed.
Context {node : Type}.
Variable querySelectorAll : node → string → result (list node).
Variable getAttribute : node → string → value.
Implicit Types (pairs : list SelectorPair) (document elm : node).

Lemma scrapeValue_trimmed contentProperty elm :
  trimmed (scrapeValue getAttribute contentProperty elm).
Proof.
  unfold scrapeValue. destruct (getAttribute elm contentProperty) as [s|]; [|done].
  simpl. destruct (String.eqb_spec s "") as [->|_]; simpl; [done|apply trim_idem].
Qed.

Lemma transformToContentRows_trimmed (contentBySelector : list (list value)) rows :
  Forall (Forall trimmed) contentBySelector →
  transformToContentRows contentBySelector = Ok rows →
  Forall (Forall trimmed) rows.
Proof.
  intros Hcols Hrows. apply Forall_forall. intros r Hr.
  apply list_elem_of_lookup in Hr as [idx Hr].
  apply Forall_forall. intros v Hv. apply list_elem_of_lookup in Hv as [i Hv].
  pose proof (transformToContentRows_width _ _ _ Hrows
                (list_elem_of_lookup_2 _ _ _ Hr)) as Hwidth.
  destruct (lookup_lt_is_Some_2 contentBySelector i) as [column Hcol].
  { rewrite <- Hwidth. by eapply lookup_lt_Some. }
  destruct (transformToContentRows_cell_of _ _ _ _ _ _ _ Hrows Hr Hv Hcol)
    as [Hin|[_ ->]]; [|done].
  rewrite Forall_forall in Hcols.
  specialize (Hcols column (list_elem_of_lookup_2 _ _ _ Hcol)).
  rewrite Forall_forall in Hcols. by apply Hcols.
Qed.

Lemma contentBySelectorOf_trimmed pairs suffixSelectors elm columns :
  contentBySelectorOf querySelectorAll getAttribute pairs suffixSelectors elm
  = Ok columns →
  Forall (Forall trimmed) columns.
Proof.
  intros Hcols. apply Forall_forall. intros column Hcol.
  destruct (contentBySelectorOf_columns _ _ _ _ _ _ _ Hcols Hcol) as (prop & elms & ->).
  apply Forall_forall. intros v Hv.
  apply list_elem_of_In, filter_In in Hv as [Hv _].
  apply list_elem_of_In, list_elem_of_fmap in Hv as (e & -> & _).
  apply scrapeValue_trimmed.
Qed.

Lemma globalColumns_trimmed pairs document columns :
  globalColumns querySelectorAll getAttribute pairs document = Ok columns →
  Forall (Forall trimmed) columns.
Proof.
  unfold globalColumns. rewrite mapM_Ok. intros Hcols.
  apply Forall_forall. intros column Hcol.
  apply list_elem_of_lookup in Hcol as [i Hcol].
  destruct (Forall2_lookup_r _ _ _ _ _ Hcols Hcol) as (selectorPair & _ & Hpair).
  unfold globalColumn in Hpair.
  destruct (querySelectorAll document _) as [elms|e]; [|done].
  simpl in Hpair. injection Hpair as <-.
  apply Forall_fmap, Forall_forall. intros e _. apply scrapeValue_trimmed.
Qed.

(** X17: in both modes every cell of a returned row is absent or a trimmed
    string, one that [trim] leaves as it is: it has no white space character
    of JavaScript, the no-break space among them, at either end. *)
Theorem extractContent_trimmed (opts : Opts) pairs document (rows : list row) :
  selectorPairs opts = Some pairs →
  extractContent querySelectorAll getAttribute (Some opts) document = Ok rows →
  Forall (Forall (λ v, match v with Some s => trim s = s | None => True end)) rows.
Proof.
  intros Hpairs Hrows. change (Forall (Forall trimmed) rows).
  destruct (inferSelectorBase querySelectorAll pairs document)
    as [[base|]|e] eqn:Hbase.
  - rewrite (extractContent_scoped _ _ _ _ _ _ Hpairs Hbase) in Hrows.
    unfold extractScoped in Hrows.
    destruct (querySelectorAll document base) as [baseElms|e]; [|done].
    simpl in Hrows.
    eapply reduce_scrape_Forall; [|by apply Forall_nil|exact Hrows].
    intros baseElm columns newRows Hcols. apply transformToContentRows_trimmed.
    by eapply contentBySelectorOf_trimmed.
  - rewrite (extractContent_global _ _ _ _ _ Hpairs Hbase) in Hrows.
    unfold extractGlobal in Hrows.
    destruct (globalColumns _ _ pairs document) as [columns|e] eqn:Hcols; [|done].
    simpl in Hrows.
    eapply transformToContentRows_trimmed; [|exact Hrows].
    by eapply globalColumns_trimmed.
  - unfold extractContent in Hrows. simpl in Hrows.
    by rewrite Hpairs, Hbase in Hrows.
Qed.

End Trimmed.

Lemma extractContent_trimmed_witness :
  Forall (Forall (λ v : value, match v with Some s => trim s = s | None => True end))
    [[Some "x y"]].
Proof.
  pose proof (extractContent_trimmed Fixture.querySelectorAll Fixture.getAttribute
                {| domRead := Some true;
                   selectorPairs := Some (Fixture.pairOf <$> ["p"]) |}
                (Fixture.pairOf <$> ["p"]) (Fixture.spaced, 0)
                [[Some "x y"]]) as Htrimmed.
  apply Htrimmed; reflexivity.
Defined.
